(** * Screens of the Sendbird chat sample (React Native)

    A shallow embedding of the three screens that carry logic:
    - [ConnectScreen]            (src/screens/ConnectScreen.tsx)
    - [GroupChannelListScreen]   (src/screens/GroupChannelListScreen.tsx, first component)
    - [GroupChannelScreen]       (same file, second component)

    The chat SDK is a black box for the screens.  Every call a screen makes
    into it (or into the navigator) is appended to a chronological [trace];
    everything the SDK does on its own (filling a collection, resolving a
    promise, firing a handler) is an [Event] chosen by the environment.
    A component is a state machine over those events: its hooks state, the
    closures its effects have registered, and the view it rendered last.

    Three rules of React are part of the model:
    - a closure built during a render sees the [state] of that render;
    - an effect is set up again, after the cleanup of its previous run, when
      one of its dependencies changed, and its cleanup runs at unmount;
    - a state setter called on a component that is not mounted does nothing.

    The invite screen ([GroupChannelInviteScreen], one-shot user query and
    selection list) is modelled in the same way. *)

From Stdlib Require Import ZArith List String Bool Lia.
From stdpp Require Import base option list strings gmap pretty.

Set Default Proof Using "Type".

(** ** Shared vocabulary *)

(** Error taxonomy of the specification.  No screen constructs any of these
    values; they are here so that statements about them can be written. A
    rejection coming out of the SDK is [SdkError]. *)
Inductive Error :=
  | NotFound
  | InProgress
  | NoMoreData
  | GapDetected
  | SubmissionFailed
  | SdkError (code : Z).

(** How the promise returned by an [async] handler stands when the handler has
    run up to its first suspension point. *)
Inductive Outcome :=
  | Resolved
  | Suspended
  | Rejected (e : Error).

(** Life of one component instance. *)
Inductive Phase := Fresh | Mounted | Unmounted.

#[global] Instance Error_eq_dec : EqDecision Error.
Proof. solve_decision. Defined.
#[global] Instance Outcome_eq_dec : EqDecision Outcome.
Proof. solve_decision. Defined.
#[global] Instance Phase_eq_dec : EqDecision Phase.
Proof. solve_decision. Defined.

(** JavaScript [a === b] where [a] is a string and [b] is a string or
    [undefined] (the result of an optional chain). *)
Definition strict_eq (a : string) (b : option string) : bool :=
  match b with
  | Some b' => String.eqb a b'
  | None => false
  end.

(** JavaScript truthiness of a string-or-undefined. *)
Definition truthy (s : option string) : bool :=
  match s with
  | Some EmptyString => false
  | Some _ => true
  | None => false
  end.

(** ** ConnectScreen *)
Module ConnectScreen.

(** [useState({id: '', accessToken: ''})] *)
Record FormState := mkForm { id : string; accessToken : string }.

Definition initialForm : FormState :=
  {| id := EmptyString; accessToken := EmptyString |}.

(** The two text inputs. *)
Inductive FormEvent :=
  | ChangeId (text : string)
  | ChangeAccessToken (text : string).

(** [onChangeText={id => setState(prev => ({...prev, id}))}] and its twin. *)
Definition onChangeText (e : FormEvent) (prev : FormState) : FormState :=
  match e with
  | ChangeId text => {| id := text; accessToken := accessToken prev |}
  | ChangeAccessToken text => {| id := id prev; accessToken := text |}
  end.

Definition typed_from (s : FormState) (es : list FormEvent) : FormState :=
  fold_left (fun s e => onChangeText e s) es s.

(** The form after the user has typed [es] into a fresh screen. *)
Definition typed (es : list FormEvent) : FormState := typed_from initialForm es.

(** What was typed into the user-id field, in order. *)
Definition id_edits (es : list FormEvent) : list string :=
  omap (fun e => match e with ChangeId t => Some t | ChangeAccessToken _ => None end) es.

Section SignIn.
Context {User : Type}.

(** [sdk.connect(userId, authToken?)] as the environment answers it:
    [inl] is a rejected promise. *)
Variable connect : string -> option string -> Error + User.

Inductive Call :=
  | CallConnect (userId : string) (authToken : option string)
  | CallSetUser (user : User).

(** [const user = await sdk.connect(state.id); setUser(user);] *)
Definition signIn (state : FormState) : list Call * Outcome :=
  match connect (id state) None with
  | inr user => ([CallConnect (id state) None; CallSetUser user], Resolved)
  | inl e => ([CallConnect (id state) None], Rejected e)
  end.

End SignIn.

End ConnectScreen.

(** ** Data shared by the two channel screens *)

(** A channel object of the SDK: the screens read its [url]; [revision]
    stands for the rest of its content. *)
Record GroupChannel := mkChannel { url : string; revision : nat }.

(** A message object of the SDK. *)
Record BaseMessage := mkMessage { messageId : Z; reqId : string; sendable : bool }.

#[global] Instance GroupChannel_eq_dec : EqDecision GroupChannel.
Proof. solve_decision. Defined.
#[global] Instance BaseMessage_eq_dec : EqDecision BaseMessage.
Proof. solve_decision. Defined.

(** *** JavaScript arrays

    Arrays are objects: a reference into a heap.  [Array.prototype.reverse]
    reverses the array in place and returns the same reference; the spread
    [...a] copies the elements out. *)
Definition loc := nat.
Abbreviation heap := (gmap loc (list BaseMessage)).

Definition array_reverse (a : loc) (h : heap) : heap * loc :=
  (alter (@rev BaseMessage) a h, a).

Definition spread (a : loc) (h : heap) : list BaseMessage :=
  default [] (h !! a).

(** The array literal handed to the message list:
[[
   [ ...collection.failedMessages.reverse(),
     ...collection.pendingMessages.reverse(),
     ...collection.succeededMessages.reverse() ]
]]
    evaluated left to right on the three arrays the getters returned. *)
Definition flatListData (failed pending succeeded : loc) (h : heap)
  : heap * list BaseMessage :=
  let '(h1, a1) := array_reverse failed h in
  let x1 := spread a1 h1 in
  let '(h2, a2) := array_reverse pending h1 in
  let x2 := spread a2 h2 in
  let '(h3, a3) := array_reverse succeeded h2 in
  let x3 := spread a3 h3 in
  (h3, x1 ++ x2 ++ x3).

(** ** GroupChannelListScreen *)
Module GroupChannelListScreen.

(** What the screen reads of the SDK's [GroupChannelCollection]. *)
Record GroupChannelCollection := mkCollection {
  channels : list GroupChannel;
  hasMore : bool;
  disposed : bool
}.

(** Calls the screen makes on its collection. *)
Inductive Call :=
  | SetGroupChannelCollectionHandler
  | LoadMore
  | Dispose.

Record World := mkWorld {
  phase : Phase;
  (** [useState(() => sdk.groupChannel.createGroupChannelCollection(..))] *)
  collection : GroupChannelCollection;
  (** [data] of the list rendered last *)
  rendered : option (list GroupChannel);
  trace : list Call
}.

(** A screen about to mount on a collection the SDK has just created. *)
Definition initial (c : GroupChannelCollection) : World :=
  {| phase := Fresh; collection := c; rendered := None; trace := [] |}.

Definition call (c : Call) (w : World) : World :=
  {| phase := phase w; collection := collection w; rendered := rendered w;
     trace := trace w ++ [c] |}.

Definition set_phase (p : Phase) (w : World) : World :=
  {| phase := p; collection := collection w; rendered := rendered w;
     trace := trace w |}.

Definition set_collection (c : GroupChannelCollection) (w : World) : World :=
  {| phase := phase w; collection := c; rendered := rendered w;
     trace := trace w |}.

(** [<FlatList data={collection.channels} .. />] *)
Definition render (w : World) : World :=
  {| phase := phase w; collection := collection w;
     rendered := Some (channels (collection w)); trace := trace w |}.

(** [useForceUpdate]: a state setter; React drops the update when the
    component is not mounted. *)
Definition forceUpdate (w : World) : World :=
  match phase w with
  | Mounted => render w
  | _ => w
  end.

(** [collection.dispose()] *)
Definition dispose (w : World) : World :=
  call Dispose
    (set_collection {| channels := channels (collection w);
                       hasMore := hasMore (collection w);
                       disposed := true |} w).

(** First render, then the effect:
[[
   collection.setGroupChannelCollectionHandler({..});
   collection.loadMore().then(forceUpdate);
   return () => collection.dispose();
]]
    [useAsyncEffect] (of the SDK's UI utilities) is taken to run this
    function as [useEffect] does and to call the cleanup it returned at
    unmount. *)
Definition mount (w : World) : World :=
  call LoadMore (call SetGroupChannelCollectionHandler (render (set_phase Mounted w))).

(** The cleanup the effect returned. *)
Definition unmount (w : World) : World :=
  dispose (set_phase Unmounted w).

(** [onEndReached={async () => { if (collection.hasMore) collection.loadMore().then(forceUpdate); }}]
    The promise of [loadMore] is not awaited: the handler's own promise
    resolves at once. *)
Definition onEndReached (w : World) : World * Outcome :=
  if hasMore (collection w) then (call LoadMore w, Resolved) else (w, Resolved).

(** [.then(forceUpdate)]: runs when a [loadMore] promise resolves; a rejection
    has no handler. *)
Definition onLoadMoreSettled (r : Error + list GroupChannel) (w : World) : World :=
  match r with
  | inr _ => forceUpdate w
  | inl _ => w
  end.

Inductive Event :=
  | EvMount
  | EvUnmount
  (** the SDK changes what its collection holds *)
  | EvSdkSync (chs : list GroupChannel) (more : bool)
  (** the three handlers of [setGroupChannelCollectionHandler] *)
  | EvChannelsAdded
  | EvChannelsDeleted
  | EvChannelsUpdated
  (** the list was scrolled to its end *)
  | EvEndReached
  (** a [loadMore] promise settles *)
  | EvLoadMoreSettled (r : Error + list GroupChannel).

Definition step (e : Event) (w : World) : World :=
  match e with
  | EvMount => match phase w with Fresh => mount w | _ => w end
  | EvUnmount => match phase w with Mounted => unmount w | _ => w end
  | EvSdkSync chs more =>
      set_collection {| channels := chs; hasMore := more;
                        disposed := disposed (collection w) |} w
  | EvChannelsAdded | EvChannelsDeleted | EvChannelsUpdated => forceUpdate w
  | EvEndReached =>
      match phase w with Mounted => fst (onEndReached w) | _ => w end
  | EvLoadMoreSettled r => onLoadMoreSettled r w
  end.

Definition run (es : list Event) (w : World) : World :=
  fold_left (fun w e => step e w) es w.

End GroupChannelListScreen.

(** ** GroupChannelScreen *)
Module GroupChannelScreen.

(** [CollectionEventSource] is an enumeration of the SDK; the screen names
    two of its members. *)
Inductive CollectionEventSource :=
  | SYNC_MESSAGE_FILL
  | EVENT_MESSAGE_RECEIVED
  | OtherSource (tag : nat).

#[global] Instance CollectionEventSource_eq_dec : EqDecision CollectionEventSource.
Proof. solve_decision. Defined.

(** [Array.prototype.includes] on an array of enumeration members. *)
Definition includes (l : list CollectionEventSource) (x : CollectionEventSource) : bool :=
  bool_decide (x ∈ l).

(** What the screen reads of the SDK's [MessageCollection]. *)
Record MessageCollection := mkCollection {
  failedMessages : list BaseMessage;
  pendingMessages : list BaseMessage;
  succeededMessages : list BaseMessage;
  hasNext : bool;
  hasPrevious : bool;
  disposed : bool
}.

(** A collection as [channel.createMessageCollection()] returns it: no
    message yet, possibly more in both directions; what it holds from then
    on is the SDK's to decide ([EvSdkSync]). *)
Definition createMessageCollection : MessageCollection :=
  {| failedMessages := []; pendingMessages := []; succeededMessages := [];
     hasNext := true; hasPrevious := true; disposed := false |}.

(** The arrays the three getters return, at three references. Whether an
    array is the SDK's own or a copy is the SDK's business: the screen's
    expression is evaluated on the arrays as returned. *)
Definition getters (c : MessageCollection) : heap :=
  {[ 0 := failedMessages c; 1 := pendingMessages c; 2 := succeededMessages c ]}.

(** [data] of the message list for a collection. *)
Definition data (c : MessageCollection) : list BaseMessage :=
  snd (flatListData 0 1 2 (getters c)).

(** One run of [initializeCollection] past its [await]: the variables its
    closures share ([channelUrl], [channel]) and the collection it made. *)
Record Subscription := mkSub {
  subUrl : string;
  subChannel : GroupChannel;
  subCollection : MessageCollection
}.

(** [useState<{channel: GroupChannel; collection: MessageCollection}>()];
    a collection object is named by its index in [subs]. *)
Record ScreenState := mkState { channel : GroupChannel; collection : nat }.

#[global] Instance ScreenState_eq_dec : EqDecision ScreenState.
Proof. solve_decision. Defined.

Inductive View :=
  | ActivityIndicator
  | FlatList (items : list BaseMessage).

(** Calls the screen makes on the SDK and on the navigator. *)
Inductive Call :=
  | GoBack
  | GetChannel (channelUrl : string)
  | CreateMessageCollection (c : nat)
  | SetMessageCollectionHandler (c : nat)
  | Initialize (c : nat)
  | MarkAsRead (channelUrl : string)
  | LoadNext (c : nat)
  | LoadPrevious (c : nat)
  | Dispose (c : nat)
  | AddGroupChannelHandler
  | RemoveGroupChannelHandler.

#[global] Instance Call_eq_dec : EqDecision Call.
Proof. solve_decision. Defined.

Record World := mkWorld {
  phase : Phase;
  (** [params?.channelUrl] *)
  params : option string;
  (** [sdk.currentUser?.userId] *)
  currentUser : option string;
  (** the [useState] cell *)
  state : option ScreenState;
  (** [state] as captured by the cleanup of the dispose effect in force *)
  disposeEffect : option ScreenState;
  (** the registered [GroupChannelHandler], with the [state] it captured *)
  channelHandler : option (option ScreenState);
  (** collections created so far *)
  subs : list Subscription;
  (** runs of [initializeCollection] waiting on [getChannel] *)
  pendingInit : list string;
  (** [loadNext]/[loadPrevious] promises not settled yet *)
  pendingLoad : list nat;
  (** what was rendered last *)
  rendered : option View;
  trace : list Call
}.

Definition initial (p : option string) (user : option string) : World :=
  {| phase := Fresh; params := p; currentUser := user; state := None;
     disposeEffect := None; channelHandler := None; subs := [];
     pendingInit := []; pendingLoad := []; rendered := None; trace := [] |}.

Definition set_phase (x : Phase) (w : World) : World :=
  mkWorld x (params w) (currentUser w) (state w) (disposeEffect w)
    (channelHandler w) (subs w) (pendingInit w) (pendingLoad w) (rendered w) (trace w).

Definition set_state (x : option ScreenState) (w : World) : World :=
  mkWorld (phase w) (params w) (currentUser w) x (disposeEffect w)
    (channelHandler w) (subs w) (pendingInit w) (pendingLoad w) (rendered w) (trace w).

Definition set_disposeEffect (x : option ScreenState) (w : World) : World :=
  mkWorld (phase w) (params w) (currentUser w) (state w) x
    (channelHandler w) (subs w) (pendingInit w) (pendingLoad w) (rendered w) (trace w).

Definition set_channelHandler (x : option (option ScreenState)) (w : World) : World :=
  mkWorld (phase w) (params w) (currentUser w) (state w) (disposeEffect w)
    x (subs w) (pendingInit w) (pendingLoad w) (rendered w) (trace w).

Definition set_subs (x : list Subscription) (w : World) : World :=
  mkWorld (phase w) (params w) (currentUser w) (state w) (disposeEffect w)
    (channelHandler w) x (pendingInit w) (pendingLoad w) (rendered w) (trace w).

Definition set_pendingInit (x : list string) (w : World) : World :=
  mkWorld (phase w) (params w) (currentUser w) (state w) (disposeEffect w)
    (channelHandler w) (subs w) x (pendingLoad w) (rendered w) (trace w).

Definition set_pendingLoad (x : list nat) (w : World) : World :=
  mkWorld (phase w) (params w) (currentUser w) (state w) (disposeEffect w)
    (channelHandler w) (subs w) (pendingInit w) x (rendered w) (trace w).

Definition set_rendered (x : option View) (w : World) : World :=
  mkWorld (phase w) (params w) (currentUser w) (state w) (disposeEffect w)
    (channelHandler w) (subs w) (pendingInit w) (pendingLoad w) x (trace w).

Definition call (c : Call) (w : World) : World :=
  mkWorld (phase w) (params w) (currentUser w) (state w) (disposeEffect w)
    (channelHandler w) (subs w) (pendingInit w) (pendingLoad w) (rendered w)
    (trace w ++ [c]).

(** [collection.dispose()] on collection [c]. *)
Definition mark_disposed (s : Subscription) : Subscription :=
  mkSub (subUrl s) (subChannel s)
    {| failedMessages := failedMessages (subCollection s);
       pendingMessages := pendingMessages (subCollection s);
       succeededMessages := succeededMessages (subCollection s);
       hasNext := hasNext (subCollection s);
       hasPrevious := hasPrevious (subCollection s);
       disposed := true |}.

Definition dispose (c : nat) (w : World) : World :=
  call (Dispose c) (set_subs (alter mark_disposed c (subs w)) w).

(** The body of the component's [return]: the spinner while [state] is
    undefined, else the message list of [state.collection]. *)
Definition view (w : World) : View :=
  match state w with
  | None => ActivityIndicator
  | Some st =>
      match subs w !! collection st with
      | Some sub => FlatList (data (subCollection sub))
      | None => FlatList []
      end
  end.

(** The cleanup of the dispose effect: [state?.collection.dispose()] on the
    [state] it captured. *)
Definition disposeCleanup (captured : option ScreenState) (w : World) : World :=
  match captured with
  | Some st => dispose (collection st) w
  | None => w
  end.

(** One render of a mounted component, then the one effect whose dependency
    can change, [useEffect(.., [state?.collection])]: when the collection
    differs from the one the effect in force was set up with, React runs
    the old cleanup and sets the effect up again on the new [state]. *)
Definition render (w : World) : World :=
  let w1 := set_rendered (Some (view w)) w in
  if decide (collection <$> state w1 = collection <$> disposeEffect w1)
  then w1
  else set_disposeEffect (state w1) (disposeCleanup (disposeEffect w1) w1).

(** [useForceUpdate]: React drops the update when the component is not
    mounted. *)
Definition rerender (w : World) : World :=
  match phase w with
  | Mounted => render w
  | _ => w
  end.

(** [setState(x)] with an object: same rule. *)
Definition setState (x : option ScreenState) (w : World) : World :=
  match phase w with
  | Mounted => render (set_state x w)
  | _ => w
  end.

(** [initializeCollection(channelUrl)] up to
    [await sdk.groupChannel.getChannel(channelUrl)]. *)
Definition initializeCollection (channelUrl : string) (w : World) : World :=
  set_pendingInit (pendingInit w ++ [channelUrl]) (call (GetChannel channelUrl) w).

(** [initializeCollection] from the [await] on: the [try] body when the
    channel arrived, the [catch] when [getChannel] threw. *)
Definition initializeCollection_resume
    (channelUrl : string) (r : Error + GroupChannel) (w : World) : World :=
  match r with
  | inr ch =>
      let c := length (subs w) in
      call (MarkAsRead (url ch))
        (call (Initialize c)
          (call (SetMessageCollectionHandler c)
            (call (CreateMessageCollection c)
              (set_subs (subs w ++ [mkSub channelUrl ch createMessageCollection]) w))))
  | inl _ => call GoBack w
  end.

(** *** The handlers given to [setMessageCollectionHandler]

    [sub] holds the variables of the run of [initializeCollection] that
    registered them. *)
Definition onChannelDeleted (w : World) : World := call GoBack w.

(** [setState(prev => (prev ? {...prev, channel} : prev))] *)
Definition onChannelUpdated (ch : GroupChannel) (w : World) : World :=
  match state w with
  | Some prev => setState (Some {| channel := ch; collection := collection prev |}) w
  | None => w
  end.

Definition onMessagesUpdated (w : World) : World := rerender w.

Definition onMessagesDeleted (w : World) : World := rerender w.

(** Whether [onMessagesAdded] goes on to [channel.markAsRead()]. *)
Definition marksAsRead (source : CollectionEventSource) : bool :=
  includes [SYNC_MESSAGE_FILL; EVENT_MESSAGE_RECEIVED] source.

Definition onMessagesAdded
    (sub : Subscription) (source : CollectionEventSource) (w : World) : World :=
  let w1 := rerender w in
  if marksAsRead source then call (MarkAsRead (url (subChannel sub))) w1 else w1.

Definition onHugeGapDetected (sub : Subscription) (w : World) : World :=
  initializeCollection (subUrl sub) w.

(** [messages?.length && messages.length > 0] *)
Definition nonempty (messages : option (list BaseMessage)) : bool :=
  match messages with
  | Some (_ :: _) => true
  | _ => false
  end.

(** The callbacks of [collection.initialize(..)]; both have the same body. *)
Definition onCacheResult
    (c : nat) (sub : Subscription) (messages : option (list BaseMessage)) (w : World) : World :=
  let w1 := if nonempty messages then rerender w else w in
  setState (Some {| channel := subChannel sub; collection := c |}) w1.

Definition onApiResult
    (c : nat) (sub : Subscription) (messages : option (list BaseMessage)) (w : World) : World :=
  let w1 := if nonempty messages then rerender w else w in
  setState (Some {| channel := subChannel sub; collection := c |}) w1.

(** *** The [GroupChannelHandler]

    [captured] is the [state] of the render whose effect built the handler;
    [sdk.currentUser] is read when the event arrives. *)
Definition onUserBanned
    (captured : option ScreenState) (eventUrl userId : string) (w : World) : World :=
  if strict_eq eventUrl (url <$> (channel <$> captured))
     && strict_eq userId (currentUser w)
  then call GoBack w else w.

Definition onUserLeft
    (captured : option ScreenState) (eventUrl userId : string) (w : World) : World :=
  if strict_eq eventUrl (url <$> (channel <$> captured))
     && strict_eq userId (currentUser w)
  then call GoBack w else w.

(** *** Mounting and unmounting

    First render ([state] is undefined), then the effects in source order:
    - initialise: [useEffect(.., [params?.channelUrl])];
    - dispose: only registers its cleanup, which captures [state];
    - banned and left: [useEffect(.., [])] builds the handler once, from this
      render, and is never set up again. *)
Definition mount (w : World) : World :=
  let w1 := set_rendered (Some (view w)) (set_phase Mounted w) in
  let w2 := match params w1 with
            | Some channelUrl =>
                if truthy (params w1) then initializeCollection channelUrl w1
                else call GoBack w1
            | None => call GoBack w1
            end in
  let w3 := set_disposeEffect (state w2) w2 in
  set_channelHandler (Some (state w3)) (call AddGroupChannelHandler w3).

(** The cleanups, in the order of their effects. *)
Definition unmount (w : World) : World :=
  let w1 := disposeCleanup (disposeEffect w) (set_phase Unmounted w) in
  set_channelHandler None (call RemoveGroupChannelHandler w1).

(** *** Pagination

    [onStartReached] and [onEndReached] are built by a render that has a
    [state]; each runs up to its [await]. *)
Definition onStartReached (w : World) : World * Outcome :=
  match state w with
  | Some st =>
      match subs w !! collection st with
      | Some sub =>
          if hasNext (subCollection sub)
          then (set_pendingLoad (pendingLoad w ++ [collection st])
                  (call (LoadNext (collection st)) w), Suspended)
          else (w, Resolved)
      | None => (w, Resolved)
      end
  | None => (w, Resolved)
  end.

Definition onEndReached (w : World) : World * Outcome :=
  match state w with
  | Some st =>
      match subs w !! collection st with
      | Some sub =>
          if hasPrevious (subCollection sub)
          then (set_pendingLoad (pendingLoad w ++ [collection st])
                  (call (LoadPrevious (collection st)) w), Suspended)
          else (w, Resolved)
      | None => (w, Resolved)
      end
  | None => (w, Resolved)
  end.

(** Either handler from its [await] on: log and [rerender()], or the
    rejection of the SDK passed on. *)
Definition onLoadSettled (r : Error + list BaseMessage) (w : World) : World * Outcome :=
  match r with
  | inr _ => (rerender w, Resolved)
  | inl e => (w, Rejected e)
  end.

(** The SDK replaces what collection [c] holds. *)
Definition sync (f p s : list BaseMessage) (hn hp : bool) (sub : Subscription) : Subscription :=
  mkSub (subUrl sub) (subChannel sub)
    {| failedMessages := f; pendingMessages := p; succeededMessages := s;
       hasNext := hn; hasPrevious := hp;
       disposed := disposed (subCollection sub) |}.

Inductive Event :=
  | EvMount
  | EvUnmount
  (** the [i]-th waiting [getChannel] settles *)
  | EvGetChannelSettled (i : nat) (r : Error + GroupChannel)
  (** the SDK changes what collection [c] holds *)
  | EvSdkSync (c : nat) (f p s : list BaseMessage) (hn hp : bool)
  (** callbacks of [initialize] on collection [c] *)
  | EvCacheResult (c : nat) (messages : option (list BaseMessage))
  | EvApiResult (c : nat) (messages : option (list BaseMessage))
  (** handlers of collection [c] *)
  | EvChannelDeleted (c : nat)
  | EvChannelUpdated (c : nat) (ch : GroupChannel)
  | EvMessagesUpdated (c : nat)
  | EvMessagesAdded (c : nat) (source : CollectionEventSource)
  | EvMessagesDeleted (c : nat)
  | EvHugeGapDetected (c : nat)
  (** the channel handler *)
  | EvUserBanned (eventUrl userId : string)
  | EvUserLeft (eventUrl userId : string)
  (** the list was scrolled to an end *)
  | EvStartReached
  | EvEndReached
  (** the [i]-th waiting [loadNext]/[loadPrevious] settles *)
  | EvLoadSettled (i : nat) (r : Error + list BaseMessage).

(** A handler of collection [c] runs only if [c] was created. *)
Definition on_collection (c : nat) (k : Subscription -> World -> World) (w : World) : World :=
  match subs w !! c with
  | Some sub => k sub w
  | None => w
  end.

Definition step (e : Event) (w : World) : World :=
  match e with
  | EvMount => match phase w with Fresh => mount w | _ => w end
  | EvUnmount => match phase w with Mounted => unmount w | _ => w end
  | EvGetChannelSettled i r =>
      match pendingInit w !! i with
      | Some channelUrl =>
          initializeCollection_resume channelUrl r
            (set_pendingInit (delete i (pendingInit w)) w)
      | None => w
      end
  | EvSdkSync c f p s hn hp => set_subs (alter (sync f p s hn hp) c (subs w)) w
  | EvCacheResult c messages => on_collection c (fun sub => onCacheResult c sub messages) w
  | EvApiResult c messages => on_collection c (fun sub => onApiResult c sub messages) w
  | EvChannelDeleted c => on_collection c (fun _ => onChannelDeleted) w
  | EvChannelUpdated c ch => on_collection c (fun _ => onChannelUpdated ch) w
  | EvMessagesUpdated c => on_collection c (fun _ => onMessagesUpdated) w
  | EvMessagesAdded c source => on_collection c (fun sub => onMessagesAdded sub source) w
  | EvMessagesDeleted c => on_collection c (fun _ => onMessagesDeleted) w
  | EvHugeGapDetected c => on_collection c onHugeGapDetected w
  | EvUserBanned eventUrl userId =>
      match channelHandler w with
      | Some captured => onUserBanned captured eventUrl userId w
      | None => w
      end
  | EvUserLeft eventUrl userId =>
      match channelHandler w with
      | Some captured => onUserLeft captured eventUrl userId w
      | None => w
      end
  | EvStartReached =>
      match phase w with Mounted => fst (onStartReached w) | _ => w end
  | EvEndReached =>
      match phase w with Mounted => fst (onEndReached w) | _ => w end
  | EvLoadSettled i r =>
      match pendingLoad w !! i with
      | Some _ => fst (onLoadSettled r (set_pendingLoad (delete i (pendingLoad w)) w))
      | None => w
      end
  end.

Definition run (es : list Event) (w : World) : World :=
  fold_left (fun w e => step e w) es w.

(** The worlds a screen can be in. *)
Definition reachable (w : World) : Prop :=
  exists p user es, w = run es (initial p user).

(** What holds of every world a screen can be in: a fresh component has no
    state; while it is mounted the dispose effect in force was set up for the
    collection in [state]; the collections named exist; and the channel
    handler, once registered, holds the undefined [state] of the first
    render. *)
Definition consistent (w : World) : Prop :=
  (phase w = Fresh -> state w = None)
  /\ (phase w = Mounted -> collection <$> disposeEffect w = collection <$> state w)
  /\ (forall st, state w = Some st -> collection st < length (subs w))
  /\ (forall st, disposeEffect w = Some st -> collection st < length (subs w))
  /\ (channelHandler w = None \/ channelHandler w = Some None).

(** The channels [markAsRead()] was called on, in order. *)
Definition markAsReadCalls (w : World) : list string :=
  omap (fun x => match x with MarkAsRead u => Some u | _ => None end) (trace w).

(** The collections [dispose()] was called on, in order. *)
Definition disposeCalls (w : World) : list nat :=
  omap (fun x => match x with Dispose c => Some c | _ => None end) (trace w).

(** How often the navigator was told to go back. *)
Definition goBackCalls (w : World) : nat :=
  length (filter (fun x => x = GoBack) (trace w)).

End GroupChannelScreen.

(** ** GroupChannelInviteScreen *)
Module GroupChannelInviteScreen.

(** A [User] object of the SDK. [ref] is the identity of the object: two
    pages of the query that both hold the user [userId] hold two objects.
    [===] on objects is equality of these records. *)
Record User := mkUser { ref : nat; userId : string }.

#[global] Instance User_eq_dec : EqDecision User.
Proof. solve_decision. Defined.

(** What the screen reads of the channel [getChannel] returned. *)
Record InviteChannel := mkInviteChannel { channelUrl : string; members : list User }.

#[global] Instance InviteChannel_eq_dec : EqDecision InviteChannel.
Proof. solve_decision. Defined.

(** [Array.prototype.indexOf]: the first index holding [u], or -1. *)
Fixpoint indexOf_from (i : Z) (l : list User) (u : User) : Z :=
  match l with
  | [] => (-1)%Z
  | x :: l' => if decide (x = u) then i else indexOf_from (i + 1)%Z l' u
  end.

Definition indexOf (l : list User) (u : User) : Z := indexOf_from 0 l u.

(** [Array.prototype.findIndex]. *)
Fixpoint findIndex_from (i : Z) (P : User -> bool) (l : list User) : Z :=
  match l with
  | [] => (-1)%Z
  | x :: l' => if P x then i else findIndex_from (i + 1)%Z P l'
  end.

Definition findIndex (P : User -> bool) (l : list User) : Z := findIndex_from 0 P l.

(** [draft.splice(index, 1)] for an index that is not negative (the only
    use): removes the element at [index], if there is one. *)
Definition splice1 (index : Z) (draft : list User) : list User :=
  delete (Z.to_nat index) draft.

(** The updater given to [setSelectedUsers] by [onPressUserCell]:
[[
   ([...draft]) => {
     const index = draft.indexOf(user);
     if (index > -1) { draft.splice(index, 1); } else { draft.push(user); }
     return draft;
   }
]] *)
Definition onPressUserCell (user : User) (selectedUsers : list User) : list User :=
  let draft := selectedUsers in
  let index := indexOf draft user in
  if (index >? -1)%Z then splice1 index draft else draft ++ [user].

(** The [selected] and [me] props [renderItem] gives a cell. *)
Definition selected (selectedUsers : list User) (channel : InviteChannel) (item : User) : bool :=
  (indexOf selectedUsers item >? -1)%Z
  || (findIndex (fun it => String.eqb (userId it) (userId item)) (members channel) >? -1)%Z.

Definition me (currentUser : option string) (item : User) : bool :=
  strict_eq (userId item) currentUser.

(** [renderItem]: nothing while the channel is not there. *)
Definition renderItem (selectedUsers : list User) (channel : option InviteChannel)
    (currentUser : option string) (item : User) : option (User * bool * bool) :=
  match channel with
  | None => None
  | Some ch => Some (item, selected selectedUsers ch item, me currentUser item)
  end.

(** Calls the screen makes on the SDK, the navigator and the alert. *)
Inductive Call :=
  | GoBack
  | GetChannel (url : string)
  | QueryNext
  | Invite (url : string) (invited : list User)
  | Navigate (url : string)
  | Alert.

#[global] Instance Call_eq_dec : EqDecision Call.
Proof. solve_decision. Defined.

Record World := mkWorld {
  phase : Phase;
  (** [params?.channelUrl] *)
  params : option string;
  currentUser : option string;
  (** [query.hasNext], kept by the SDK *)
  hasNext : bool;
  (** the three [useState] cells *)
  users : list User;
  selectedUsers : list User;
  channel : option InviteChannel;
  (** [selectedUsers] and [channel] as captured by the [onPressInviteUsers]
      of the header button in force *)
  header : option (list User * option InviteChannel);
  (** [initialFetch] waiting on [getChannel] *)
  awaitingChannel : bool;
  (** [initialFetch] waiting on [query.next()] *)
  awaitingInitialUsers : bool;
  (** runs of [onLoadMoreUsers] waiting on [query.next()] *)
  awaitingMoreUsers : nat;
  (** runs of [onPressInviteUsers] waiting on [channel.invite(..)], with the
      url of their channel *)
  awaitingInvite : list string;
  trace : list Call
}.

Definition initial (p user : option string) (more : bool) : World :=
  {| phase := Fresh; params := p; currentUser := user; hasNext := more;
     users := []; selectedUsers := []; channel := None; header := None;
     awaitingChannel := false; awaitingInitialUsers := false;
     awaitingMoreUsers := 0; awaitingInvite := []; trace := [] |}.

Definition set_phase (x : Phase) (w : World) : World :=
  mkWorld x (params w) (currentUser w) (hasNext w) (users w) (selectedUsers w)
    (channel w) (header w) (awaitingChannel w) (awaitingInitialUsers w)
    (awaitingMoreUsers w) (awaitingInvite w) (trace w).

Definition set_hasNext (x : bool) (w : World) : World :=
  mkWorld (phase w) (params w) (currentUser w) x (users w) (selectedUsers w)
    (channel w) (header w) (awaitingChannel w) (awaitingInitialUsers w)
    (awaitingMoreUsers w) (awaitingInvite w) (trace w).

Definition set_users (x : list User) (w : World) : World :=
  mkWorld (phase w) (params w) (currentUser w) (hasNext w) x (selectedUsers w)
    (channel w) (header w) (awaitingChannel w) (awaitingInitialUsers w)
    (awaitingMoreUsers w) (awaitingInvite w) (trace w).

Definition set_selectedUsers (x : list User) (w : World) : World :=
  mkWorld (phase w) (params w) (currentUser w) (hasNext w) (users w) x
    (channel w) (header w) (awaitingChannel w) (awaitingInitialUsers w)
    (awaitingMoreUsers w) (awaitingInvite w) (trace w).

Definition set_channel (x : option InviteChannel) (w : World) : World :=
  mkWorld (phase w) (params w) (currentUser w) (hasNext w) (users w) (selectedUsers w)
    x (header w) (awaitingChannel w) (awaitingInitialUsers w)
    (awaitingMoreUsers w) (awaitingInvite w) (trace w).

Definition set_header (x : option (list User * option InviteChannel)) (w : World) : World :=
  mkWorld (phase w) (params w) (currentUser w) (hasNext w) (users w) (selectedUsers w)
    (channel w) x (awaitingChannel w) (awaitingInitialUsers w)
    (awaitingMoreUsers w) (awaitingInvite w) (trace w).

Definition set_awaitingChannel (x : bool) (w : World) : World :=
  mkWorld (phase w) (params w) (currentUser w) (hasNext w) (users w) (selectedUsers w)
    (channel w) (header w) x (awaitingInitialUsers w)
    (awaitingMoreUsers w) (awaitingInvite w) (trace w).

Definition set_awaitingInitialUsers (x : bool) (w : World) : World :=
  mkWorld (phase w) (params w) (currentUser w) (hasNext w) (users w) (selectedUsers w)
    (channel w) (header w) (awaitingChannel w) x
    (awaitingMoreUsers w) (awaitingInvite w) (trace w).

Definition set_awaitingMoreUsers (x : nat) (w : World) : World :=
  mkWorld (phase w) (params w) (currentUser w) (hasNext w) (users w) (selectedUsers w)
    (channel w) (header w) (awaitingChannel w) (awaitingInitialUsers w)
    x (awaitingInvite w) (trace w).

Definition set_awaitingInvite (x : list string) (w : World) : World :=
  mkWorld (phase w) (params w) (currentUser w) (hasNext w) (users w) (selectedUsers w)
    (channel w) (header w) (awaitingChannel w) (awaitingInitialUsers w)
    (awaitingMoreUsers w) x (trace w).

Definition call (c : Call) (w : World) : World :=
  mkWorld (phase w) (params w) (currentUser w) (hasNext w) (users w) (selectedUsers w)
    (channel w) (header w) (awaitingChannel w) (awaitingInitialUsers w)
    (awaitingMoreUsers w) (awaitingInvite w) (trace w ++ [c]).

(** One render of a mounted component, then the layout effect of
    [useHeaderButtons(selectedUsers, channel)], whose dependencies are
    [[selectedUsers.length]]: when the length differs from the one at its last
    run, it builds [onPressInviteUsers] again, closing over the
    [selectedUsers] and [channel] of this render, and installs it in the
    header. *)
Definition render (w : World) : World :=
  match header w with
  | Some (captured, _) =>
      if decide (length (selectedUsers w) = length captured) then w
      else set_header (Some (selectedUsers w, channel w)) w
  | None => set_header (Some (selectedUsers w, channel w)) w
  end.

(** The three state setters; React drops the update when the component is
    not mounted. *)
Definition setUsers (x : list User) (w : World) : World :=
  match phase w with
  | Mounted => render (set_users x w)
  | _ => w
  end.

Definition setSelectedUsers (x : list User) (w : World) : World :=
  match phase w with
  | Mounted => render (set_selectedUsers x w)
  | _ => w
  end.

Definition setChannel (x : option InviteChannel) (w : World) : World :=
  match phase w with
  | Mounted => render (set_channel x w)
  | _ => w
  end.

(** [initialFetch] up to [await sdk.groupChannel.getChannel(..)]. *)
Definition initialFetch (w : World) : World :=
  match params w with
  | Some url =>
      if truthy (params w)
      then set_awaitingChannel true (call (GetChannel url) w)
      else call GoBack w
  | None => call GoBack w
  end.

(** [initialFetch] from the channel on: [setChannel(channel)], then
    [if (query.hasNext)] the first page is asked for. A rejection of
    [getChannel] is not caught: the function ends there. *)
Definition initialFetch_channel (r : Error + InviteChannel) (w : World) : World :=
  match r with
  | inr ch =>
      let w1 := setChannel (Some ch) w in
      if hasNext w1 then set_awaitingInitialUsers true (call QueryNext w1) else w1
  | inl _ => w
  end.

(** [initialFetch] from the first page on: [setUsers(initialUsers)]. *)
Definition initialFetch_users (r : Error + list User) (w : World) : World :=
  match r with
  | inr initialUsers => setUsers initialUsers w
  | inl _ => w
  end.

(** First render (it sets the header up), then the effect. *)
Definition mount (w : World) : World :=
  initialFetch (render (set_phase Mounted w)).

(** [onLoadMoreUsers] up to its [await], and from it on:
    [setUsers(prev => [...prev, ...fetchedUsers])]. *)
Definition onLoadMoreUsers (w : World) : World * Outcome :=
  if hasNext w
  then (set_awaitingMoreUsers (S (awaitingMoreUsers w)) (call QueryNext w), Suspended)
  else (w, Resolved).

Definition onLoadMoreUsers_resume (r : Error + list User) (w : World) : World * Outcome :=
  match r with
  | inr fetchedUsers => (setUsers (users w ++ fetchedUsers) w, Resolved)
  | inl e => (w, Rejected e)
  end.

(** [onPressInviteUsers] on the values it captured, up to
    [await channel.invite(selectedUsers)]:
    [if (selectedUsers.length > 0 && channel) {..} else { alert(..) }]. *)
Definition onPressInviteUsers
    (captured : list User * option InviteChannel) (w : World) : World * Outcome :=
  match captured with
  | (sel, Some ch) =>
      if (0 <? length sel)%nat
      then (set_awaitingInvite (awaitingInvite w ++ [channelUrl ch])
              (call (Invite (channelUrl ch) sel) w), Suspended)
      else (call Alert w, Resolved)
  | (_, None) => (call Alert w, Resolved)
  end.

(** From the [await] on: [navigation.navigate(Routes.GroupChannel, {channelUrl})]. *)
Definition onPressInviteUsers_resume
    (url : string) (r : Error + unit) (w : World) : World * Outcome :=
  match r with
  | inr _ => (call (Navigate url) w, Resolved)
  | inl e => (w, Rejected e)
  end.

Inductive Event :=
  | EvMount
  | EvUnmount
  (** the SDK changes [query.hasNext] *)
  | EvQuerySync (more : bool)
  (** promises of [initialFetch] settle *)
  | EvGetChannelSettled (r : Error + InviteChannel)
  | EvInitialUsersSettled (r : Error + list User)
  (** the list was scrolled to its end; a page of [onLoadMoreUsers] arrives *)
  | EvEndReached
  | EvMoreUsersSettled (r : Error + list User)
  (** a cell was pressed; cells exist once there is a channel, one per user
      of [users] *)
  | EvPressUserCell (user : User)
  (** the header button was pressed; the [i]-th waiting [invite] settles *)
  | EvPressInvite
  | EvInviteSettled (i : nat) (r : Error + unit).

Definition step (e : Event) (w : World) : World :=
  match e with
  | EvMount => match phase w with Fresh => mount w | _ => w end
  | EvUnmount => match phase w with Mounted => set_phase Unmounted w | _ => w end
  | EvQuerySync more => set_hasNext more w
  | EvGetChannelSettled r =>
      if awaitingChannel w
      then initialFetch_channel r (set_awaitingChannel false w)
      else w
  | EvInitialUsersSettled r =>
      if awaitingInitialUsers w
      then initialFetch_users r (set_awaitingInitialUsers false w)
      else w
  | EvEndReached =>
      match phase w with Mounted => fst (onLoadMoreUsers w) | _ => w end
  | EvMoreUsersSettled r =>
      match awaitingMoreUsers w with
      | S n => fst (onLoadMoreUsers_resume r (set_awaitingMoreUsers n w))
      | O => w
      end
  | EvPressUserCell user =>
      match phase w, channel w with
      | Mounted, Some _ =>
          if bool_decide (user ∈ users w)
          then setSelectedUsers (onPressUserCell user (selectedUsers w)) w
          else w
      | _, _ => w
      end
  | EvPressInvite =>
      match phase w, header w with
      | Mounted, Some captured => fst (onPressInviteUsers captured w)
      | _, _ => w
      end
  | EvInviteSettled i r =>
      match awaitingInvite w !! i with
      | Some url =>
          fst (onPressInviteUsers_resume url r
                 (set_awaitingInvite (delete i (awaitingInvite w)) w))
      | None => w
      end
  end.

Definition run (es : list Event) (w : World) : World :=
  fold_left (fun w e => step e w) es w.

Definition reachable (w : World) : Prop :=
  exists p user more es, w = run es (initial p user more).

(** The lists of users [invite] was called with, in order. *)
Definition invitations (w : World) : list (list User) :=
  omap (fun x => match x with Invite _ us => Some us | _ => None end) (trace w).

(** What holds of every world the screen can be in: the header button sees
    the selection of the latest render, and the channel too once somebody is
    selected; nobody is selected before the channel is there or twice; the
    channel is fetched once; and nobody was ever invited as part of an empty
    list or twice in one list. *)
Definition consistent (w : World) : Prop :=
  (phase w = Fresh -> header w = None /\ selectedUsers w = [] /\ channel w = None
                      /\ awaitingChannel w = false)
  /\ (phase w <> Fresh -> exists capturedChannel,
        header w = Some (selectedUsers w, capturedChannel)
        /\ (selectedUsers w <> [] -> capturedChannel = channel w))
  /\ (channel w = None -> selectedUsers w = [])
  /\ (awaitingChannel w = true -> channel w = None)
  /\ NoDup (selectedUsers w)
  /\ (forall us, us ∈ invitations w -> us <> [] /\ NoDup us).

End GroupChannelInviteScreen.

(** ** GroupChannelScreen: the keys of the message list *)
Module MessageKeys.

(** The integers a JavaScript number holds exactly
    ([Number.isSafeInteger]): those strictly between -2^53 and 2^53. *)
Definition safe_integer (n : Z) : Prop := (- 2 ^ 53 < n < 2 ^ 53)%Z.

(** [String(n)] for a number that is a safe integer: its decimal digits.
    Beyond that range JavaScript prints the shortest digits that identify
    the double (and an exponent from 10^21 on), which this function does not
    follow; a statement that depends on the digits themselves assumes
    [safe_integer]. *)
Definition String_of_number (n : Z) : string := pretty n.

(** [keyExtractor]:
[[
   (item) => (isSendableMessage(item) && item.reqId ? item.reqId : String(item.messageId))
]]
    [isSendableMessage] (of [../libs/utils]) is the [sendable] field; an empty
    [reqId] is falsy. *)
Definition keyExtractor (item : BaseMessage) : string :=
  if sendable item && truthy (Some (reqId item))
  then reqId item
  else String_of_number (messageId item).

(** Whether the key of [item] is its request id. *)
Definition keyed_by_reqId (item : BaseMessage) : bool :=
  sendable item && truthy (Some (reqId item)).

End MessageKeys.

(** ** GroupChannelScreen: an SDK that is silent after [dispose] *)
Module SdkDelivery.
Import GroupChannelScreen.

(** Collection [c] exists and was not disposed. *)
Definition live (c : nat) (w : World) : bool :=
  match subs w !! c with
  | Some sub => negb (disposed (subCollection sub))
  | None => false
  end.

(** The collection whose callback an event is. *)
Definition source_collection (e : Event) : option nat :=
  match e with
  | EvCacheResult c _ | EvApiResult c _ | EvChannelDeleted c | EvChannelUpdated c _
  | EvMessagesUpdated c | EvMessagesAdded c _ | EvMessagesDeleted c
  | EvHugeGapDetected c => Some c
  | _ => None
  end.

(** A run in which no callback of a disposed collection is delivered. *)
Fixpoint silent_after_dispose (es : list Event) (w : World) : Prop :=
  match es with
  | [] => True
  | e :: es' =>
      (forall c, source_collection e = Some c -> live c w = true)
      /\ silent_after_dispose es' (step e w)
  end.

(** The record of disposals agrees with the collections: no collection was
    disposed twice, the disposed ones are those recorded, and the collection
    the dispose effect of a mounted screen will dispose is live. *)
Definition disposals_agree (w : World) : Prop :=
  NoDup (disposeCalls w)
  /\ (forall c, c ∈ disposeCalls w
                <-> exists sub, subs w !! c = Some sub
                                /\ disposed (subCollection sub) = true)
  /\ (phase w = Mounted ->
      forall st, disposeEffect w = Some st -> live (collection st) w = true).

End SdkDelivery.

(** ** Counting in traces and typing histories *)
Module Histories.

(** What was typed into the access-token field, in order. *)
Definition token_edits (es : list ConnectScreen.FormEvent) : list string :=
  omap (fun e => match e with
                 | ConnectScreen.ChangeAccessToken t => Some t
                 | ConnectScreen.ChangeId _ => None
                 end) es.

(** How often the channel list was scrolled to its end. *)
Fixpoint scrolled_to_end (es : list GroupChannelListScreen.Event) : nat :=
  match es with
  | [] => 0
  | GroupChannelListScreen.EvEndReached :: es' => S (scrolled_to_end es')
  | _ :: es' => scrolled_to_end es'
  end.

(** The calls the channel list has made on its collection by the time it
    is in phase [ph], with [n] loads after the first. *)
Definition trace_shape (ph : Phase) (n : nat) : list GroupChannelListScreen.Call :=
  match ph with
  | Fresh => []
  | Mounted =>
      [GroupChannelListScreen.SetGroupChannelCollectionHandler;
       GroupChannelListScreen.LoadMore]
      ++ replicate n GroupChannelListScreen.LoadMore
  | Unmounted =>
      [GroupChannelListScreen.SetGroupChannelCollectionHandler;
       GroupChannelListScreen.LoadMore]
      ++ replicate n GroupChannelListScreen.LoadMore
      ++ [GroupChannelListScreen.Dispose]
  end.

End Histories.

(** ** Concrete inputs

    Small worlds and traces on which the statements below are exercised. *)
Module Inputs.

(** An SDK that connects any user id given alone and refuses any token. *)
Definition connect_demo (userId : string) (token : option string) : Error + string :=
  match token with
  | Some _ => inl (SdkError 400302)
  | None => inr userId
  end.

Definition typing_1 : list ConnectScreen.FormEvent :=
  [ConnectScreen.ChangeId "alice"; ConnectScreen.ChangeAccessToken "secret"]%string.

Definition typing_2 : list ConnectScreen.FormEvent :=
  [ConnectScreen.ChangeAccessToken "x"; ConnectScreen.ChangeId "alice";
   ConnectScreen.ChangeAccessToken EmptyString]%string.

(** A channel, three messages, and a message screen that has mounted on the
    channel, got it from the SDK, and received the cache result of its
    first collection. *)
Definition channel_demo : GroupChannel := mkChannel "ch" 0.

Definition m1 : BaseMessage := mkMessage 1 "r1" true.
Definition m2 : BaseMessage := mkMessage 2 "r2" true.
Definition m3 : BaseMessage := mkMessage 3 EmptyString false.
Definition m4 : BaseMessage := mkMessage 4 EmptyString false.

Definition opening : list GroupChannelScreen.Event :=
  [GroupChannelScreen.EvMount;
   GroupChannelScreen.EvGetChannelSettled 0 (inr channel_demo);
   GroupChannelScreen.EvSdkSync 0 [m1] [m2] [m3; m4] true false;
   GroupChannelScreen.EvCacheResult 0 (Some [m3; m4])].

Definition world_ready : GroupChannelScreen.World :=
  GroupChannelScreen.run opening
    (GroupChannelScreen.initial (Some "ch"%string) (Some "me"%string)).

(** A channel list that has mounted, shown two channels, asked for one more
    page, and unmounted before the page came. *)
Definition list_collection : GroupChannelListScreen.GroupChannelCollection :=
  GroupChannelListScreen.mkCollection [] true false.






(** A mounted channel list with more pages to load, and one with none. *)
Definition list_open : GroupChannelListScreen.World :=
  GroupChannelListScreen.run
    [GroupChannelListScreen.EvMount;
     GroupChannelListScreen.EvSdkSync [channel_demo] true;
     GroupChannelListScreen.EvLoadMoreSettled (inr [channel_demo])]
    (GroupChannelListScreen.initial list_collection).

Definition list_exhausted : GroupChannelListScreen.World :=
  GroupChannelListScreen.step (GroupChannelListScreen.EvSdkSync [channel_demo] false) list_open.

(** The message screen of [world_ready] with pages left in both directions,
    and with none in either. *)
Definition world_more : GroupChannelScreen.World :=
  GroupChannelScreen.step (GroupChannelScreen.EvSdkSync 0 [m1] [m2] [m3; m4] true true) world_ready.

Definition world_exhausted : GroupChannelScreen.World :=
  GroupChannelScreen.step (GroupChannelScreen.EvSdkSync 0 [m1] [m2] [m3; m4] false false) world_ready.

(** A message screen that is left while its first collection is being
    initialised: the channel has arrived and the collection is created, but
    no result of [initialize] has come yet. *)
Definition world_left_early : GroupChannelScreen.World :=
  GroupChannelScreen.run
    [GroupChannelScreen.EvMount;
     GroupChannelScreen.EvGetChannelSettled 0 (inr channel_demo);
     GroupChannelScreen.EvUnmount]
    (GroupChannelScreen.initial (Some "ch"%string) (Some "me"%string)).

End Inputs.

(** Three users, a channel the first of them is a member of, and an invite
    screen on which the second and the third were selected. *)
Module InviteInputs.
Import GroupChannelInviteScreen.

Definition u1 : User := mkUser 1 "ann".
Definition u2 : User := mkUser 2 "bob".
Definition u3 : User := mkUser 3 "cy".

(** [ann] again, as a second object. *)
Definition u1' : User := mkUser 4 "ann".

Definition channel_demo : InviteChannel := mkInviteChannel "ch" [u1].

Definition opening : list Event :=
  [EvMount; EvGetChannelSettled (inr channel_demo);
   EvInitialUsersSettled (inr [u1; u2; u3]);
   EvPressUserCell u2; EvPressUserCell u3].

Definition world_selected : World :=
  run opening (initial (Some "ch"%string) (Some "me"%string) true).

End InviteInputs.

(** More runs of the message screen. *)
Module MoreInputs.
Import GroupChannelScreen.

(** The screen of [Inputs.world_ready] goes through a gap, shows the second
    collection, and is unmounted. *)
Definition gap_and_leave : list Event :=
  Inputs.opening
  ++ [EvHugeGapDetected 0;
      EvGetChannelSettled 0 (inr (mkChannel "ch" 1));
      EvSdkSync 1 [] [Inputs.m2] [Inputs.m4] false true;
      EvApiResult 1 (Some [Inputs.m4]);
      EvMessagesAdded 1 EVENT_MESSAGE_RECEIVED;
      EvUnmount].

End MoreInputs.

(** * Properties *)

(** ** ConnectScreen: the access-token field *)
Module ConnectScreenSpec.
Import ConnectScreen.

(** The user id of the form is the last text typed into the user-id field. *)
Lemma id_typed_from (s : FormState) (es : list FormEvent) :
  id (typed_from s es) = fold_left (fun _ text => text) (id_edits es) (id s).
Proof.
  revert s. induction es as [|e es IH]; intros s; [reflexivity|].
  unfold typed_from in *. cbn [fold_left]. rewrite IH.
  destruct e; reflexivity.
Qed.

Lemma signIn_reads_id {User : Type} (connect : string -> option string -> Error + User)
    (s1 s2 : FormState) :
  id s1 = id s2 -> signIn connect s1 = signIn connect s2.
Proof. unfold signIn. intros ->. reflexivity. Qed.

(** C10. Two runs of the connect screen in which the same texts were typed
    into the user-id field, whatever was typed into the access-token field
    and whenever, sign in identically: the same calls ([connect] with the
    user id and no token, then [setUser] with the user it returned) and the
    same outcome. *)
Theorem signIn_ignores_accessToken {User : Type}
    (connect : string -> option string -> Error + User) (es1 es2 : list FormEvent) :
  id_edits es1 = id_edits es2 ->
  signIn connect (typed es1) = signIn connect (typed es2)
  /\ exists rest,
       fst (signIn connect (typed es1)) = CallConnect (id (typed es1)) None :: rest.
Proof.
  intros Hids. split.
  - apply signIn_reads_id. unfold typed. rewrite !id_typed_from, Hids. reflexivity.
  - unfold signIn. destruct (connect _ None); eexists; reflexivity.
Qed.

Lemma signIn_ignores_accessToken_witness :
  id_edits Inputs.typing_1 = id_edits Inputs.typing_2
  /\ (signIn Inputs.connect_demo (typed Inputs.typing_1)
        = signIn Inputs.connect_demo (typed Inputs.typing_2)
      /\ exists rest,
           fst (signIn Inputs.connect_demo (typed Inputs.typing_1))
           = CallConnect (id (typed Inputs.typing_1)) None :: rest).
Proof.
  split; [reflexivity|].
  apply (signIn_ignores_accessToken Inputs.connect_demo Inputs.typing_1 Inputs.typing_2).
  reflexivity.
Defined.

End ConnectScreenSpec.

(** ** GroupChannelScreen *)
Module GroupChannelScreenSpec.
Import GroupChannelScreen.

(** *** The array handed to the message list *)

(** On three different arrays the literal is the three reversals in a row:
    reversing one array in place does not disturb the other two. *)
Lemma flatListData_distinct (f p s : loc) (h : heap) :
  f <> p -> f <> s -> p <> s ->
  snd (flatListData f p s h)
  = rev (spread f h) ++ rev (spread p h) ++ rev (spread s h).
Proof.
  intros Hfp Hfs Hps. unfold flatListData, array_reverse, spread. cbn [snd].
  rewrite !lookup_alter_eq.
  rewrite (lookup_alter_ne _ _ f p) by done.
  rewrite (lookup_alter_ne _ _ p s) by done.
  rewrite (lookup_alter_ne _ _ f s) by done.
  destruct (h !! f), (h !! p), (h !! s); reflexivity.
Qed.

(** The arrays are reversed in place: the heap left behind holds them
    reversed. *)
Lemma flatListData_heap (f p s : loc) (h : heap) :
  fst (flatListData f p s h) = alter (@rev _) s (alter (@rev _) p (alter (@rev _) f h)).
Proof. reflexivity. Qed.

Lemma data_buckets (c : MessageCollection) :
  data c = rev (failedMessages c) ++ rev (pendingMessages c) ++ rev (succeededMessages c).
Proof.
  unfold data. rewrite flatListData_distinct by done.
  unfold spread, getters. by simplify_map_eq.
Qed.

(** C2. Whenever the message screen has a state, what it renders is the
    message list whose data is the failed bucket reversed, then the pending
    bucket reversed, then the succeeded bucket reversed, of the collection in
    its state; that holds whether or not any local optimistic write exists. *)
Theorem view_is_failed_pending_succeeded_reversed
    (w : World) (st : ScreenState) (sub : Subscription) :
  state w = Some st ->
  subs w !! collection st = Some sub ->
  view w = FlatList (rev (failedMessages (subCollection sub))
                     ++ rev (pendingMessages (subCollection sub))
                     ++ rev (succeededMessages (subCollection sub))).
Proof.
  intros Hst Hsub. unfold view. rewrite Hst, Hsub, data_buckets. reflexivity.
Qed.

Lemma view_is_failed_pending_succeeded_reversed_witness :
  exists st sub,
    state Inputs.world_ready = Some st
    /\ subs Inputs.world_ready !! collection st = Some sub
    /\ failedMessages (subCollection sub) = [Inputs.m1]
    /\ pendingMessages (subCollection sub) = [Inputs.m2]
    /\ succeededMessages (subCollection sub) = [Inputs.m3; Inputs.m4]
    /\ view Inputs.world_ready = FlatList [Inputs.m1; Inputs.m2; Inputs.m4; Inputs.m3].
Proof.
  eexists; eexists.
  split; [reflexivity|]. split; [reflexivity|].
  split; [reflexivity|]. split; [reflexivity|]. split; [reflexivity|].
  exact (view_is_failed_pending_succeeded_reversed Inputs.world_ready _ _ eq_refl eq_refl).
Defined.

(** *** What a render adds to the trace *)

Lemma trace_call (c : Call) (w : World) : trace (call c w) = trace w ++ [c].
Proof. reflexivity. Qed.

(** A render calls the SDK only to dispose the collection of the dispose
    effect it replaces. *)
Lemma trace_render (w : World) :
  trace (render w)
  = trace w ++
    (if decide (collection <$> state w = collection <$> disposeEffect w) then []
     else match disposeEffect w with
          | Some st => [Dispose (collection st)]
          | None => []
          end).
Proof.
  unfold render. cbn [state disposeEffect set_rendered].
  case_decide; cbn; [by rewrite app_nil_r|].
  destruct (disposeEffect w); cbn; [reflexivity | by rewrite app_nil_r].
Qed.

Lemma markAsReadCalls_app (w w' : World) (l : list Call) :
  trace w' = trace w ++ l ->
  markAsReadCalls w'
  = markAsReadCalls w ++ omap (fun x => match x with MarkAsRead u => Some u | _ => None end) l.
Proof. unfold markAsReadCalls. intros ->. apply omap_app. Qed.

Lemma markAsReadCalls_rerender (w : World) :
  markAsReadCalls (rerender w) = markAsReadCalls w.
Proof.
  unfold rerender. destruct (phase w); try reflexivity.
  rewrite (markAsReadCalls_app w _ _ (trace_render w)).
  case_decide; [by rewrite app_nil_r|].
  destruct (disposeEffect w); cbn; by rewrite app_nil_r.
Qed.

Lemma marksAsRead_spec (source : CollectionEventSource) :
  marksAsRead source = true
  <-> source = SYNC_MESSAGE_FILL \/ source = EVENT_MESSAGE_RECEIVED.
Proof.
  unfold marksAsRead, includes. rewrite bool_decide_eq_true.
  rewrite !elem_of_cons, elem_of_nil. tauto.
Qed.

(** C7. When the handler of added messages runs for a collection, the
    channel of that collection is marked as read, once, if the source of the
    event is the fill of the initial sync or a received live message; for
    every other source no mark-as-read call is made. *)
Theorem markAsRead_iff_source
    (w : World) (c : nat) (sub : Subscription) (source : CollectionEventSource) :
  subs w !! c = Some sub ->
  (source = SYNC_MESSAGE_FILL \/ source = EVENT_MESSAGE_RECEIVED ->
     markAsReadCalls (step (EvMessagesAdded c source) w)
     = markAsReadCalls w ++ [url (subChannel sub)])
  /\ (~ (source = SYNC_MESSAGE_FILL \/ source = EVENT_MESSAGE_RECEIVED) ->
     markAsReadCalls (step (EvMessagesAdded c source) w) = markAsReadCalls w).
Proof.
  intros Hsub. cbn [step]. unfold on_collection, onMessagesAdded. rewrite Hsub.
  pose proof (marksAsRead_spec source) as Hspec.
  destruct (marksAsRead source); split; intros Hsrc.
  - rewrite (markAsReadCalls_app (rerender w) _ _ (trace_call _ _)).
    by rewrite markAsReadCalls_rerender.
  - exfalso. apply Hsrc, Hspec. reflexivity.
  - apply Hspec in Hsrc. discriminate.
  - apply markAsReadCalls_rerender.
Qed.

Lemma markAsRead_iff_source_witness :
  subs Inputs.world_ready !! 0 = Some (mkSub "ch" Inputs.channel_demo
    (mkCollection [Inputs.m1] [Inputs.m2] [Inputs.m3; Inputs.m4] true false false))
  /\ markAsReadCalls (step (EvMessagesAdded 0 EVENT_MESSAGE_RECEIVED) Inputs.world_ready)
     = ["ch"; "ch"]%string
  /\ markAsReadCalls (step (EvMessagesAdded 0 (OtherSource 7)) Inputs.world_ready)
     = ["ch"]%string.
Proof.
  split; [reflexivity|]. split.
  - exact (proj1 (markAsRead_iff_source Inputs.world_ready 0 _ EVENT_MESSAGE_RECEIVED eq_refl)
             (or_intror eq_refl)).
  - refine (proj2 (markAsRead_iff_source Inputs.world_ready 0 _ (OtherSource 7) eq_refl) _).
    intros [H|H]; discriminate H.
Defined.

(** *** Reachable worlds are consistent *)

Lemma consistent_ext (w w' : World) :
  phase w' = phase w -> state w' = state w ->
  disposeEffect w' = disposeEffect w ->
  channelHandler w' = channelHandler w ->
  length (subs w) <= length (subs w') ->
  consistent w -> consistent w'.
Proof.
  unfold consistent. intros -> -> -> -> Hlen (H1 & H2 & H3 & H4 & H5).
  repeat split; auto; intros st Hst.
  - specialize (H3 st Hst). lia.
  - specialize (H4 st Hst). lia.
Qed.

Lemma consistent_render (w : World) :
  phase w <> Fresh ->
  (forall st, state w = Some st -> collection st < length (subs w)) ->
  (forall st, disposeEffect w = Some st -> collection st < length (subs w)) ->
  (channelHandler w = None \/ channelHandler w = Some None) ->
  consistent (render w).
Proof.
  intros Hp H3 H4 H5. unfold render. cbn [state disposeEffect set_rendered].
  case_decide as Hdeps.
  - unfold consistent. cbn. repeat split; auto. intros Hf. contradiction.
  - unfold consistent, disposeCleanup.
    destruct (disposeEffect w) as [old|] eqn:Hold; cbn;
      rewrite ?length_alter, ?Hold;
      repeat split; auto; intros Hf; contradiction.
Qed.

Lemma consistent_rerender (w : World) : consistent w -> consistent (rerender w).
Proof.
  intros Hw. unfold rerender. destruct (phase w) eqn:Hp; auto.
  destruct Hw as (H1 & H2 & H3 & H4 & H5).
  apply consistent_render; auto. congruence.
Qed.

Lemma consistent_setState (x : option ScreenState) (w : World) :
  (forall st, x = Some st -> collection st < length (subs w)) ->
  consistent w -> consistent (setState x w).
Proof.
  intros Hx Hw. unfold setState. destruct (phase w) eqn:Hp; auto.
  destruct Hw as (H1 & H2 & H3 & H4 & H5).
  apply consistent_render; cbn; auto. congruence.
Qed.

Lemma consistent_step (e : Event) (w : World) : consistent w -> consistent (step e w).
Proof.
  intros Hw. pose proof Hw as (H1 & H2 & H3 & H4 & H5).
  destruct e; cbn [step]; unfold on_collection.
  - (* mount *)
    destruct (phase w) eqn:Hp; auto.
    unfold mount, consistent. cbn.
    assert (state w = None) as Hs by auto.
    destruct (params w) as [u|]; [destruct (truthy (Some u))|]; cbn;
      rewrite ?Hs; repeat split; auto; try discriminate.
  - (* unmount *)
    destruct (phase w) eqn:Hp; auto.
    unfold unmount, consistent, disposeCleanup.
    destruct (disposeEffect w) as [old|] eqn:Hold; cbn;
      rewrite ?length_alter, ?Hold;
      repeat split; auto; discriminate.
  - (* getChannel settles *)
    destruct (pendingInit w !! i); auto.
    unfold initializeCollection_resume. destruct r as [err|ch]; auto.
    eapply consistent_ext; [..|exact Hw]; try reflexivity.
    cbn. rewrite length_app. lia.
  - eapply consistent_ext; [..|exact Hw]; try reflexivity.
    cbn. by rewrite length_alter.
  - destruct (subs w !! c) eqn:Hc; auto. unfold onCacheResult.
    apply lookup_lt_Some in Hc.
    destruct (nonempty messages).
    + apply consistent_setState; [|by apply consistent_rerender].
      intros st [= <-]. cbn.
      replace (length (subs (rerender w))) with (length (subs w)); [done|].
      unfold rerender, render, disposeCleanup. cbn.
      repeat case_match; cbn; by rewrite ?length_alter.
    + apply consistent_setState; [|done]. by intros st [= <-].
  - destruct (subs w !! c) eqn:Hc; auto. unfold onApiResult.
    apply lookup_lt_Some in Hc.
    destruct (nonempty messages).
    + apply consistent_setState; [|by apply consistent_rerender].
      intros st [= <-]. cbn.
      replace (length (subs (rerender w))) with (length (subs w)); [done|].
      unfold rerender, render, disposeCleanup. cbn.
      repeat case_match; cbn; by rewrite ?length_alter.
    + apply consistent_setState; [|done]. by intros st [= <-].
  - destruct (subs w !! c); auto.
  - destruct (subs w !! c); auto. unfold onChannelUpdated.
    destruct (state w) as [prev|] eqn:Hs; auto.
    apply consistent_setState; [|done]. intros st [= <-]. cbn. auto.
  - destruct (subs w !! c); auto. by apply consistent_rerender.
  - destruct (subs w !! c); auto. unfold onMessagesAdded.
    pose proof (consistent_rerender w Hw).
    destruct (marksAsRead source); auto.
  - destruct (subs w !! c); auto. by apply consistent_rerender.
  - destruct (subs w !! c); auto.
  - destruct (channelHandler w); auto. unfold onUserBanned. case_match; auto.
  - destruct (channelHandler w); auto. unfold onUserLeft. case_match; auto.
  - destruct (phase w); auto. unfold onStartReached.
    repeat case_match; cbn [fst]; auto.
  - destruct (phase w); auto. unfold onEndReached.
    repeat case_match; cbn [fst]; auto.
  - destruct (pendingLoad w !! i); auto. unfold onLoadSettled.
    destruct r; cbn [fst]; auto. apply consistent_rerender. auto.
Qed.

Lemma consistent_initial (p user : option string) : consistent (initial p user).
Proof. unfold consistent. cbn. repeat split; auto; intros; discriminate. Qed.

Lemma consistent_run (es : list Event) (w : World) : consistent w -> consistent (run es w).
Proof.
  revert w. induction es as [|e es IH]; intros w Hw; [done|].
  apply IH, consistent_step, Hw.
Qed.

Lemma reachable_consistent (w : World) : reachable w -> consistent w.
Proof. intros (p & user & es & ->). apply consistent_run, consistent_initial. Qed.

Lemma reachable_run (es : list Event) (w : World) : reachable w -> reachable (run es w).
Proof.
  intros (p & user & es0 & ->). exists p, user, (es0 ++ es).
  unfold run. by rewrite fold_left_app.
Qed.

(** *** Re-subscription after a gap *)






(** *** After the unmount *)

(** Every state change of the component goes through [rerender] or
    [setState]; once the component is unmounted neither has an effect. *)
Lemma rerender_unmounted (w : World) : phase w = Unmounted -> rerender w = w.
Proof. unfold rerender. intros ->. reflexivity. Qed.

Lemma setState_unmounted (x : option ScreenState) (w : World) :
  phase w = Unmounted -> setState x w = w.
Proof. unfold setState. intros ->. reflexivity. Qed.

Lemma step_unmounted (e : Event) (w : World) :
  phase w = Unmounted ->
  phase (step e w) = Unmounted
  /\ state (step e w) = state w
  /\ rendered (step e w) = rendered w.
Proof.
  intros H.
  destruct e; cbn [step];
    unfold on_collection, onCacheResult, onApiResult, onChannelDeleted,
      onChannelUpdated, onMessagesUpdated, onMessagesAdded, onMessagesDeleted,
      onHugeGapDetected, onUserBanned, onUserLeft, onLoadSettled,
      initializeCollection_resume, initializeCollection;
    rewrite ?H; repeat case_match; subst; cbn [fst];
    rewrite ?(rerender_unmounted w H), ?(setState_unmounted _ w H);
    rewrite ?rerender_unmounted by (cbn; exact H);
    cbn; auto.
Qed.

Lemma run_unmounted (es : list Event) (w : World) :
  phase w = Unmounted ->
  phase (run es w) = Unmounted
  /\ state (run es w) = state w
  /\ rendered (run es w) = rendered w.
Proof.
  revert w. induction es as [|e es IH]; intros w H; [done|].
  destruct (step_unmounted e w H) as (Hp & Hs & Hr).
  destruct (IH (step e w) Hp) as (Hp' & Hs' & Hr').
  unfold run in *. cbn [fold_left]. rewrite Hs', Hr'. auto.
Qed.

(** *** Banned and left *)

(** In every world the screen can be in, the channel handler holds the
    undefined state of the first render, so no ban or leave event passes
    its test: the event changes nothing and the navigator is not called. *)
Lemma ban_or_leave_changes_nothing (w : World) (eventUrl userId : string) :
  reachable w ->
  step (EvUserBanned eventUrl userId) w = w
  /\ step (EvUserLeft eventUrl userId) w = w.
Proof.
  intros Hr. destruct (reachable_consistent w Hr) as (_ & _ & _ & _ & [H5|H5]);
    cbn [step]; rewrite H5; auto.
Qed.

(** C6, at the failing input: the screen shows channel [ch] to user [me];
    a ban of [me] from [ch], or [me] leaving [ch] on another device, is
    delivered to the channel handler. The handler compares the event's url
    with the url of the state it captured at the first render, which is
    undefined: the world is unchanged and the navigator is never told to go
    back. With the state of the current render the same handler goes back;
    and the deletion of the channel does go back. *)
Theorem ban_of_current_user_is_ignored :
  phase Inputs.world_ready = Mounted
  /\ (url <$> (channel <$> state Inputs.world_ready)) = Some "ch"%string
  /\ currentUser Inputs.world_ready = Some "me"%string
  /\ channelHandler Inputs.world_ready = Some None
  /\ step (EvUserBanned "ch" "me") Inputs.world_ready = Inputs.world_ready
  /\ step (EvUserLeft "ch" "me") Inputs.world_ready = Inputs.world_ready
  /\ goBackCalls (run [EvUserBanned "ch" "me"; EvUserLeft "ch" "me"] Inputs.world_ready) = 0
  /\ onUserBanned (state Inputs.world_ready) "ch" "me" Inputs.world_ready
     = call GoBack Inputs.world_ready
  /\ goBackCalls (step (EvChannelDeleted 0) Inputs.world_ready) = 1.
Proof. repeat split. Qed.

(** *** Disposal on unmount *)

Lemma disposeCalls_call (c : Call) (w : World) :
  disposeCalls (call c w)
  = disposeCalls w ++ match c with Dispose k => [k] | _ => [] end.
Proof. unfold disposeCalls. cbn. rewrite omap_app. by destruct c. Qed.

(** Unmounting a screen whose state holds a collection disposes it. *)
Lemma unmount_disposes_state_collection (w : World) (st : ScreenState) :
  reachable w -> phase w = Mounted -> state w = Some st ->
  disposeCalls (step EvUnmount w) = disposeCalls w ++ [collection st].
Proof.
  intros Hr Hp Hst.
  destruct (reachable_consistent w Hr) as (_ & H2 & _).
  specialize (H2 Hp). rewrite Hst in H2. cbn in H2.
  destruct (disposeEffect w) as [de|] eqn:Hde; [|discriminate].
  injection H2 as H2.
  cbn [step]. rewrite Hp. unfold unmount. cbn [disposeEffect set_phase].
  rewrite Hde. unfold disposeCleanup, disposeCalls. cbn.
  rewrite !omap_app. cbn. by rewrite app_nil_r, H2.
Qed.

(** After the unmount nothing disposes any more. *)
Lemma step_unmounted_disposeCalls (e : Event) (w : World) :
  phase w = Unmounted -> disposeCalls (step e w) = disposeCalls w.
Proof.
  intros H.
  destruct e; cbn [step];
    unfold on_collection, onCacheResult, onApiResult, onChannelDeleted,
      onChannelUpdated, onMessagesUpdated, onMessagesAdded, onMessagesDeleted,
      onHugeGapDetected, onUserBanned, onUserLeft, onLoadSettled,
      initializeCollection_resume, initializeCollection;
    rewrite ?H; repeat case_match; subst; cbn [fst];
    rewrite ?(rerender_unmounted w H), ?(setState_unmounted _ w H);
    rewrite ?rerender_unmounted by (cbn; exact H);
    rewrite ?disposeCalls_call, ?app_nil_r; auto;
    unfold disposeCalls; cbn; rewrite ?omap_app; cbn; by rewrite ?app_nil_r.
Qed.

Lemma run_unmounted_disposeCalls (es : list Event) (w : World) :
  phase w = Unmounted -> disposeCalls (run es w) = disposeCalls w.
Proof.
  revert w. induction es as [|e es IH]; intros w H; [done|].
  unfold run in *. cbn [fold_left].
  rewrite IH by (by apply step_unmounted).
  by apply step_unmounted_disposeCalls.
Qed.

(** C8, at the failing input: the screen mounts for channel [ch], the
    channel arrives, collection 0 is created, given its handlers and
    initialised; the screen is unmounted before the first result. The
    cleanup finds an undefined state and disposes nothing; whatever happens
    afterwards, collection 0 is never disposed. *)
Theorem unmount_before_first_result_leaks :
  phase Inputs.world_left_early = Unmounted
  /\ trace Inputs.world_left_early
     = [GetChannel "ch"; AddGroupChannelHandler; CreateMessageCollection 0;
        SetMessageCollectionHandler 0; Initialize 0; MarkAsRead "ch";
        RemoveGroupChannelHandler]
  /\ (disposed <$> (subCollection <$> subs Inputs.world_left_early !! 0)) = Some false
  /\ forall es,
       disposeCalls (run es Inputs.world_left_early) = []
       /\ state (run es Inputs.world_left_early) = None.
Proof.
  split; [reflexivity|]. split; [reflexivity|]. split; [reflexivity|].
  intros es. split.
  - by rewrite run_unmounted_disposeCalls.
  - by destruct (run_unmounted es Inputs.world_left_early eq_refl) as (_ & -> & _).
Qed.


End GroupChannelScreenSpec.

(** ** GroupChannelListScreen *)
Module GroupChannelListScreenSpec.
Import GroupChannelListScreen.



(** The channel list disposes its collection at every unmount: its cleanup
    closes over the collection itself, which exists from the first render. *)
Lemma list_unmount_disposes (w : World) :
  phase w = Mounted ->
  trace (step EvUnmount w) = trace w ++ [Dispose]
  /\ disposed (collection (step EvUnmount w)) = true.
Proof. intros H. cbn [step]. rewrite H. split; reflexivity. Qed.

Lemma list_mount_then_unmount (c : GroupChannelCollection) :
  trace (run [EvMount; EvUnmount] (initial c))
  = [SetGroupChannelCollectionHandler; LoadMore; Dispose].
Proof. reflexivity. Qed.

End GroupChannelListScreenSpec.

(** ** Both screens *)
Module ScreensSpec.




(** *** Pagination with nothing left *)

(** C3, as stated, fails: with the flag false the trigger of the channel
    list and both triggers of the message screen resolve; none is rejected
    with [NoMoreData]. *)
Lemma exhausted_trigger_is_not_NoMoreData :
  GroupChannelListScreen.hasMore (GroupChannelListScreen.collection Inputs.list_exhausted) = false
  /\ snd (GroupChannelListScreen.onEndReached Inputs.list_exhausted) = Resolved
  /\ snd (GroupChannelListScreen.onEndReached Inputs.list_exhausted) <> Rejected NoMoreData
  /\ snd (GroupChannelScreen.onStartReached Inputs.world_exhausted) = Resolved
  /\ snd (GroupChannelScreen.onStartReached Inputs.world_exhausted) <> Rejected NoMoreData
  /\ snd (GroupChannelScreen.onEndReached Inputs.world_exhausted) = Resolved
  /\ snd (GroupChannelScreen.onEndReached Inputs.world_exhausted) <> Rejected NoMoreData.
Proof. repeat split; (reflexivity || discriminate). Qed.

(** C3, amended. When the has-more flag of a direction is false, the
    screen's load-more trigger for that direction is a silent no-op: it makes
    no call to the collection, its promise resolves without an error, and
    the world (collection, rendered list, trace of calls) is exactly what it
    was. *)
Theorem exhausted_trigger_is_silent_noop
    (wl : GroupChannelListScreen.World)
    (w : GroupChannelScreen.World) (st : GroupChannelScreen.ScreenState)
    (sub : GroupChannelScreen.Subscription) :
  GroupChannelScreen.state w = Some st ->
  GroupChannelScreen.subs w !! GroupChannelScreen.collection st = Some sub ->
  (GroupChannelListScreen.hasMore (GroupChannelListScreen.collection wl) = false ->
     GroupChannelListScreen.onEndReached wl = (wl, Resolved))
  /\ (GroupChannelScreen.hasNext (GroupChannelScreen.subCollection sub) = false ->
     GroupChannelScreen.onStartReached w = (w, Resolved))
  /\ (GroupChannelScreen.hasPrevious (GroupChannelScreen.subCollection sub) = false ->
     GroupChannelScreen.onEndReached w = (w, Resolved)).
Proof.
  intros Hst Hsub. repeat split; intros Hflag.
  - unfold GroupChannelListScreen.onEndReached. rewrite Hflag. reflexivity.
  - unfold GroupChannelScreen.onStartReached. rewrite Hst, Hsub, Hflag. reflexivity.
  - unfold GroupChannelScreen.onEndReached. rewrite Hst, Hsub, Hflag. reflexivity.
Qed.

Lemma exhausted_trigger_is_silent_noop_witness :
  GroupChannelScreen.state Inputs.world_exhausted
  = Some (GroupChannelScreen.mkState Inputs.channel_demo 0)
  /\ GroupChannelListScreen.step GroupChannelListScreen.EvEndReached Inputs.list_exhausted
     = Inputs.list_exhausted
  /\ GroupChannelScreen.step GroupChannelScreen.EvStartReached Inputs.world_exhausted
     = Inputs.world_exhausted
  /\ GroupChannelScreen.step GroupChannelScreen.EvEndReached Inputs.world_exhausted
     = Inputs.world_exhausted.
Proof.
  split; [reflexivity|].
  pose proof (exhausted_trigger_is_silent_noop Inputs.list_exhausted
                Inputs.world_exhausted _ _ eq_refl eq_refl) as (Hl & Hn & Hp).
  split; [|split].
  - exact (f_equal fst (Hl eq_refl)).
  - exact (f_equal fst (Hn eq_refl)).
  - exact (f_equal fst (Hp eq_refl)).
Defined.

(** *** Overlapping pagination *)

(** X15. The screens keep no in-progress flag: a load-more trigger that
    finds the has-more flag true asks the collection to load, whether or
    not an earlier load is outstanding. So two triggers in a row, with the
    flag true and nothing settled in between, make two load calls. Up to
    the [await] the screen rejects neither: the handler of the channel list
    has resolved, and both handlers of the message screen wait on the
    promises of the SDK, whose settlement, a rejection included, is the
    SDK's. *)
Theorem overlapping_triggers_each_call_load
    (wl : GroupChannelListScreen.World)
    (w : GroupChannelScreen.World) (st : GroupChannelScreen.ScreenState)
    (sub : GroupChannelScreen.Subscription) :
  GroupChannelListScreen.hasMore (GroupChannelListScreen.collection wl) = true ->
  GroupChannelScreen.state w = Some st ->
  GroupChannelScreen.subs w !! GroupChannelScreen.collection st = Some sub ->
  let c := GroupChannelScreen.collection st in
  let r1 := GroupChannelListScreen.onEndReached wl in
  let r2 := GroupChannelListScreen.onEndReached (fst r1) in
  let s1 := GroupChannelScreen.onStartReached w in
  let s2 := GroupChannelScreen.onStartReached (fst s1) in
  let e1 := GroupChannelScreen.onEndReached w in
  let e2 := GroupChannelScreen.onEndReached (fst e1) in
  (snd r1 = Resolved /\ snd r2 = Resolved
   /\ GroupChannelListScreen.trace (fst r2)
      = GroupChannelListScreen.trace wl
        ++ [GroupChannelListScreen.LoadMore; GroupChannelListScreen.LoadMore])
  /\ (GroupChannelScreen.hasNext (GroupChannelScreen.subCollection sub) = true ->
      snd s1 = Suspended /\ snd s2 = Suspended
      /\ GroupChannelScreen.trace (fst s2)
         = GroupChannelScreen.trace w
           ++ [GroupChannelScreen.LoadNext c; GroupChannelScreen.LoadNext c]
      /\ GroupChannelScreen.pendingLoad (fst s2)
         = GroupChannelScreen.pendingLoad w ++ [c; c])
  /\ (GroupChannelScreen.hasPrevious (GroupChannelScreen.subCollection sub) = true ->
      snd e1 = Suspended /\ snd e2 = Suspended
      /\ GroupChannelScreen.trace (fst e2)
         = GroupChannelScreen.trace w
           ++ [GroupChannelScreen.LoadPrevious c; GroupChannelScreen.LoadPrevious c]
      /\ GroupChannelScreen.pendingLoad (fst e2)
         = GroupChannelScreen.pendingLoad w ++ [c; c]).
Proof.
  intros Hmore Hst Hsub. cbv zeta. split; [|split].
  - unfold GroupChannelListScreen.onEndReached. rewrite Hmore. cbn. rewrite Hmore. cbn.
    rewrite <- app_assoc. auto.
  - intros Hflag. unfold GroupChannelScreen.onStartReached.
    rewrite Hst, Hsub, Hflag. cbn. rewrite Hst, Hsub, Hflag. cbn.
    rewrite <- !app_assoc. auto.
  - intros Hflag. unfold GroupChannelScreen.onEndReached.
    rewrite Hst, Hsub, Hflag. cbn. rewrite Hst, Hsub, Hflag. cbn.
    rewrite <- !app_assoc. auto.
Qed.

Lemma overlapping_triggers_each_call_load_witness :
  GroupChannelListScreen.hasMore (GroupChannelListScreen.collection Inputs.list_open) = true
  /\ GroupChannelScreen.state Inputs.world_more
     = Some (GroupChannelScreen.mkState Inputs.channel_demo 0)
  /\ GroupChannelListScreen.trace
       (GroupChannelListScreen.run
          [GroupChannelListScreen.EvEndReached; GroupChannelListScreen.EvEndReached]
          Inputs.list_open)
     = [GroupChannelListScreen.SetGroupChannelCollectionHandler;
        GroupChannelListScreen.LoadMore;
        GroupChannelListScreen.LoadMore; GroupChannelListScreen.LoadMore]
  /\ GroupChannelScreen.pendingLoad
       (GroupChannelScreen.run
          [GroupChannelScreen.EvEndReached; GroupChannelScreen.EvEndReached]
          Inputs.world_more)
     = [0; 0].
Proof.
  split; [reflexivity|]. split; [reflexivity|].
  pose proof (overlapping_triggers_each_call_load Inputs.list_open
                Inputs.world_more _ _ eq_refl eq_refl eq_refl) as (Hl & _ & Hp).
  split.
  - exact (proj2 (proj2 Hl)).
  - exact (proj2 (proj2 (proj2 (Hp eq_refl)))).
Defined.

End ScreensSpec.

(** ** GroupChannelInviteScreen *)
Module GroupChannelInviteScreenSpec.
Import GroupChannelInviteScreen.

(** *** Selecting users *)

Lemma indexOf_from_spec (i : Z) (l : list User) (u : User) :
  (0 <= i)%Z ->
  ((u ∉ l) /\ indexOf_from i l u = (-1)%Z)
  \/ (exists k, l !! k = Some u
               /\ (forall j, j < k -> l !! j <> Some u)
               /\ indexOf_from i l u = (i + Z.of_nat k)%Z).
Proof.
  revert i. induction l as [|x l IH]; intros i Hi; cbn [indexOf_from].
  - left. split; [apply not_elem_of_nil | reflexivity].
  - destruct (decide (x = u)) as [->|Hne].
    + right. exists 0. split; [reflexivity|]. split; [lia|]. lia.
    + assert (0 <= i + 1)%Z as Hi' by lia.
      destruct (IH (i + 1)%Z Hi') as [[Hnot Heq]|(k & Hk & Hfirst & Heq)].
      * left. split; [|exact Heq]. rewrite elem_of_cons. intros [E|E]; [by subst | done].
      * right. exists (S k). split; [exact Hk|]. split; [|lia].
        intros [|j] Hj; cbn; [congruence|]. apply Hfirst. lia.
Qed.

Lemma onPressUserCell_absent (u : User) (l : list User) :
  u ∉ l -> onPressUserCell u l = l ++ [u].
Proof.
  intros Hnot. unfold onPressUserCell, indexOf.
  destruct (indexOf_from_spec 0 l u (Z.le_refl 0)) as [[_ ->]|(k & Hk & _)]; [reflexivity|].
  apply list_elem_of_lookup_2 in Hk. contradiction.
Qed.

Lemma onPressUserCell_present (u : User) (l : list User) :
  u ∈ l ->
  exists k, l !! k = Some u
            /\ (forall j, j < k -> l !! j <> Some u)
            /\ onPressUserCell u l = delete k l.
Proof.
  intros Hin. unfold onPressUserCell, indexOf, splice1.
  destruct (indexOf_from_spec 0 l u (Z.le_refl 0)) as [[Hnot _]|(k & Hk & Hfirst & ->)];
    [contradiction|].
  exists k. split; [exact Hk|]. split; [exact Hfirst|].
  replace (0 + Z.of_nat k >? -1)%Z with true by (symmetry; apply Z.gtb_lt; lia).
  by rewrite Z.add_0_l, Nat2Z.id.
Qed.

(** A press always changes the number of selected users, by one. *)
Lemma onPressUserCell_length (u : User) (l : list User) :
  (u ∈ l -> S (length (onPressUserCell u l)) = length l)
  /\ (u ∉ l -> length (onPressUserCell u l) = S (length l)).
Proof.
  split; intros H.
  - destruct (onPressUserCell_present u l H) as (k & Hk & _ & ->).
    rewrite length_delete by eauto. apply lookup_lt_Some in Hk. lia.
  - rewrite onPressUserCell_absent by done. rewrite length_app. cbn. lia.
Qed.

Lemma onPressUserCell_length_ne (u : User) (l : list User) :
  length (onPressUserCell u l) <> length l.
Proof.
  destruct (onPressUserCell_length u l) as [Hin Hout].
  destruct (decide (u ∈ l)) as [H|H]; [pose proof (Hin H) | pose proof (Hout H)]; lia.
Qed.

Lemma onPressUserCell_elem_of (u v : User) (l : list User) :
  NoDup l ->
  v ∈ onPressUserCell u l <-> (v <> u /\ v ∈ l) \/ (v = u /\ u ∉ l).
Proof.
  intros Hnd. destruct (decide (u ∈ l)) as [Hin|Hnot].
  - destruct (onPressUserCell_present u l Hin) as (k & Hk & _ & ->).
    pose proof (delete_Permutation l k u Hk) as Hperm.
    assert (NoDup (u :: delete k l)) as Hnd' by (by rewrite <- Hperm).
    apply NoDup_cons in Hnd' as [Hu _].
    assert (forall x, x ∈ l <-> x = u \/ x ∈ delete k l) as Hl.
    { intros x. rewrite Hperm at 1. apply elem_of_cons. }
    split.
    + intros Hv. left. split; [intros ->; contradiction | apply Hl; by right].
    + intros [[Hne Hv]|[-> Hu']]; [|contradiction].
      apply Hl in Hv as [->|Hv]; [contradiction | exact Hv].
  - rewrite onPressUserCell_absent by done. rewrite elem_of_app, list_elem_of_singleton.
    split.
    + intros [Hv| ->]; [left; split; [intros ->; contradiction | exact Hv] | by right].
    + intros [[_ Hv]|[-> _]]; auto.
Qed.

Lemma onPressUserCell_NoDup (u : User) (l : list User) :
  NoDup l -> NoDup (onPressUserCell u l).
Proof.
  intros Hnd. destruct (decide (u ∈ l)) as [Hin|Hnot].
  - destruct (onPressUserCell_present u l Hin) as (k & _ & _ & ->).
    eapply sublist_NoDup; [exact Hnd | apply sublist_delete].
  - rewrite onPressUserCell_absent by done.
    apply NoDup_app. split; [exact Hnd|]. split; [|apply NoDup_singleton].
    intros x Hx ->%list_elem_of_singleton. contradiction.
Qed.


(** *** Reachable worlds are consistent *)

Lemma invitations_app (w w' : World) (l : list Call) :
  trace w' = trace w ++ l ->
  invitations w'
  = invitations w ++ omap (fun x => match x with Invite _ us => Some us | _ => None end) l.
Proof. unfold invitations. intros ->. apply omap_app. Qed.

Lemma invite_consistent_ext (w w' : World) :
  phase w' = phase w -> selectedUsers w' = selectedUsers w ->
  channel w' = channel w -> header w' = header w ->
  awaitingChannel w' = awaitingChannel w -> invitations w' = invitations w ->
  consistent w -> consistent w'.
Proof. unfold consistent. intros -> -> -> -> -> ->. done. Qed.

Lemma invite_consistent_call (c : Call) (w : World) :
  (forall url us, c = Invite url us -> us <> [] /\ NoDup us) ->
  consistent w -> consistent (call c w).
Proof.
  intros Hc (H1 & H2 & H3 & H4 & H5 & H6).
  unfold consistent. rewrite (invitations_app w (call c w) [c]) by reflexivity.
  split; [exact H1|]. split; [exact H2|]. split; [exact H3|].
  split; [exact H4|]. split; [exact H5|].
  intros us [Hus|Hus]%elem_of_app; [by apply H6|].
  destruct c; cbn in Hus; try (by apply elem_of_nil in Hus).
  apply list_elem_of_singleton in Hus as ->. by eapply Hc.
Qed.

Lemma invite_consistent_call_plain (c : Call) (w : World) :
  (forall url us, c <> Invite url us) -> consistent w -> consistent (call c w).
Proof. intros Hc. apply invite_consistent_call. intros url us ->. by destruct (Hc url us). Qed.

Lemma render_same_selection (w x : World) :
  consistent w -> phase w <> Fresh ->
  selectedUsers x = selectedUsers w -> header x = header w ->
  render x = x.
Proof.
  intros (_ & H2 & _) Hp Hsel Hh. destruct (H2 Hp) as (cap & Hcap & _).
  unfold render. rewrite Hh, Hcap, Hsel. by rewrite decide_True.
Qed.

Lemma invite_consistent_setUsers (x : list User) (w : World) :
  consistent w -> consistent (setUsers x w).
Proof.
  intros Hw. unfold setUsers. destruct (phase w) eqn:Hp; auto.
  rewrite (render_same_selection w) by (done || congruence).
  eapply invite_consistent_ext; [..|exact Hw]; done.
Qed.

Lemma invite_consistent_setChannel (ch : InviteChannel) (w : World) :
  awaitingChannel w = false -> channel w = None ->
  consistent w -> consistent (setChannel (Some ch) w).
Proof.
  intros Ha Hc Hw. unfold setChannel. destruct (phase w) eqn:Hp; auto.
  rewrite (render_same_selection w) by (done || congruence).
  destruct Hw as (H1 & H2 & H3 & H4 & H5 & H6).
  unfold consistent. cbn. rewrite Hp.
  split; [discriminate|]. split.
  { intros _. destruct (H2 ltac:(congruence)) as (cap & Hcap & _).
    exists cap. split; [exact Hcap|]. intros Hne. destruct Hne. by apply H3. }
  split; [discriminate|]. split; [by rewrite Ha|]. split; [exact H5 | exact H6].
Qed.

Lemma invite_consistent_setSelectedUsers (u : User) (w : World) :
  channel w <> None ->
  consistent w ->
  consistent (setSelectedUsers (onPressUserCell u (selectedUsers w)) w).
Proof.
  intros Hc Hw. unfold setSelectedUsers. destruct (phase w) eqn:Hp; auto.
  destruct Hw as (H1 & H2 & H3 & H4 & H5 & H6).
  destruct (H2 ltac:(congruence)) as (cap & Hcap & _).
  unfold render. cbn. rewrite Hcap.
  rewrite decide_False by apply onPressUserCell_length_ne.
  unfold consistent. cbn. rewrite Hp.
  split; [discriminate|]. split; [eauto|].
  split; [done|]. split; [exact H4|].
  split; [by apply onPressUserCell_NoDup | exact H6].
Qed.

Lemma invite_consistent_step (e : Event) (w : World) : consistent w -> consistent (step e w).
Proof.
  intros Hw. pose proof Hw as (H1 & H2 & H3 & H4 & H5 & H6).
  destruct e; cbn [step].
  - (* mount *)
    destruct (phase w) eqn:Hp; auto.
    destruct (H1 eq_refl) as (Hh & Hs & Hc & Ha).
    assert (consistent (render (set_phase Mounted w))) as Hr.
    { unfold render. cbn. rewrite Hh. unfold consistent. cbn. rewrite Hs, Hc, Ha.
      split; [discriminate|]. split; [eauto|]. split; [done|]. split; [done|].
      split; [apply NoDup_nil_2 | exact H6]. }
    unfold mount, initialFetch.
    set (w1 := render (set_phase Mounted w)) in *.
    destruct (params w1) as [url|]; [destruct (truthy (Some url))|];
      try (by apply invite_consistent_call_plain).
    assert (consistent (call (GetChannel url) w1)) as (G1 & G2 & G3 & G4 & G5 & G6)
      by (by apply invite_consistent_call_plain).
    assert (phase w1 = Mounted /\ channel w1 = None) as [Hp1 Hc1]
      by (subst w1; unfold render; cbn; rewrite Hh; done).
    unfold consistent. cbn in *. rewrite Hp1.
    split; [discriminate|]. split; [intros _; apply G2; by rewrite Hp1|].
    split; [exact G3|]. split; [done|]. split; [exact G5 | exact G6].
  - (* unmount *)
    destruct (phase w) eqn:Hp; auto.
    unfold consistent. cbn.
    split; [discriminate|]. split; [intros _; apply H2; discriminate|]. done.
  - eapply invite_consistent_ext; [..|exact Hw]; done.
  - (* the channel arrives *)
    destruct (awaitingChannel w) eqn:Ha; auto.
    pose proof (H4 eq_refl) as Hc.
    assert (consistent (set_awaitingChannel false w)) as Hw0.
    { unfold consistent. cbn. repeat split; try done; try (by apply H1); try (by apply H2); by apply H6. }
    unfold initialFetch_channel. destruct r as [err|ch]; auto.
    pose proof (invite_consistent_setChannel ch (set_awaitingChannel false w) eq_refl Hc Hw0) as Hw1.
    destruct (hasNext _); auto.
    eapply invite_consistent_ext; [..|apply invite_consistent_call_plain, Hw1]; done.
  - (* the first page arrives *)
    destruct (awaitingInitialUsers w); auto.
    unfold initialFetch_users. destruct r; [|apply invite_consistent_setUsers].
    all: eapply invite_consistent_ext; [..|exact Hw]; done.
  - destruct (phase w); auto. unfold onLoadMoreUsers.
    destruct (hasNext w); cbn [fst]; auto.
    eapply invite_consistent_ext; [..|apply (invite_consistent_call_plain QueryNext), Hw]; done.
  - destruct (awaitingMoreUsers w); auto. unfold onLoadMoreUsers_resume.
    destruct r; cbn [fst]; [|apply invite_consistent_setUsers].
    all: eapply invite_consistent_ext; [..|exact Hw]; done.
  - destruct (phase w) eqn:Hp; auto. destruct (channel w) eqn:Hc; auto.
    case_bool_decide; auto. apply invite_consistent_setSelectedUsers; [congruence|done].
  - (* the header button *)
    destruct (phase w) eqn:Hp; auto. destruct (header w) as [[sel cap]|] eqn:Hh; auto.
    destruct (H2 ltac:(congruence)) as (cap' & Hcap & _).
    injection Hcap as Hsel Hcp. subst sel cap.
    unfold onPressInviteUsers. destruct cap' as [ch|]; cbn [fst];
      [|by apply invite_consistent_call_plain].
    destruct (0 <? length (selectedUsers w)) eqn:Hlen; cbn [fst];
      [|by apply invite_consistent_call_plain].
    eapply invite_consistent_ext; [..|apply (invite_consistent_call (Invite (channelUrl ch) (selectedUsers w))), Hw];
      try done.
    intros url us [= _ <-]. split; [|exact H5].
    intros Hnil. rewrite Hnil in Hlen. discriminate.
  - destruct (awaitingInvite w !! i); auto. unfold onPressInviteUsers_resume.
    destruct r; cbn [fst].
    + eapply invite_consistent_ext; [..|exact Hw]; done.
    + eapply invite_consistent_ext; [..|apply (invite_consistent_call_plain (Navigate s)), Hw]; done.
Qed.

Lemma invite_consistent_initial (p user : option string) (more : bool) :
  consistent (initial p user more).
Proof.
  unfold consistent. cbn. repeat split; try done; try apply NoDup_nil_2.
  all: intros; exfalso; eapply elem_of_nil; eassumption.
Qed.

Lemma invite_consistent_run (es : list Event) (w : World) : consistent w -> consistent (run es w).
Proof.
  revert w. induction es as [|e es IH]; intros w Hw; [done|].
  apply IH, invite_consistent_step, Hw.
Qed.

Lemma invite_reachable_consistent (w : World) : reachable w -> consistent w.
Proof. intros (p & user & more & es & ->). apply invite_consistent_run, invite_consistent_initial. Qed.

Lemma invite_reachable_step (e : Event) (w : World) : reachable w -> reachable (step e w).
Proof.
  intros (p & user & more & es & ->). exists p, user, more, (es ++ [e]).
  unfold run. by rewrite fold_left_app.
Qed.

Lemma reachable_world_selected : reachable InviteInputs.world_selected.
Proof.
  exists (Some "ch"%string), (Some "me"%string), true, InviteInputs.opening. reflexivity.
Qed.


(** *** What the selection and the header button do *)

(** X1. A press on a user's cell toggles that user and nobody else: with no
    user selected twice, after the press the user is selected exactly if
    they were not, every other user is selected exactly if they were, still
    nobody is selected twice, and the number of selected users has changed. *)
Theorem press_toggles_one_user (u : User) (l : list User) :
  NoDup l ->
  NoDup (onPressUserCell u l)
  /\ (u ∈ onPressUserCell u l <-> u ∉ l)
  /\ (forall v, v <> u -> v ∈ onPressUserCell u l <-> v ∈ l)
  /\ length (onPressUserCell u l) <> length l.
Proof.
  intros Hnd. split; [by apply onPressUserCell_NoDup|].
  split; [|split; [|apply onPressUserCell_length_ne]].
  - rewrite onPressUserCell_elem_of by done. intuition congruence.
  - intros v Hv. rewrite onPressUserCell_elem_of by done. intuition congruence.
Qed.

Lemma press_toggles_one_user_witness :
  NoDup [InviteInputs.u1; InviteInputs.u2]
  /\ onPressUserCell InviteInputs.u1 [InviteInputs.u1; InviteInputs.u2] = [InviteInputs.u2]
  /\ NoDup (onPressUserCell InviteInputs.u1 [InviteInputs.u1; InviteInputs.u2]).
Proof.
  assert (NoDup [InviteInputs.u1; InviteInputs.u2]) as Hnd.
  { apply NoDup_cons. split; [|apply NoDup_singleton].
    intros H%list_elem_of_singleton. discriminate H. }
  split; [exact Hnd|]. split; [reflexivity|].
  exact (proj1 (press_toggles_one_user InviteInputs.u1 _ Hnd)).
Defined.

(** X2. Pressing the same cell twice gives back the same selected users:
    the very same list when the user was not selected before, and the same
    users with that one moved to the end when they were. *)
Theorem press_twice_restores (u : User) (l : list User) :
  NoDup l ->
  onPressUserCell u (onPressUserCell u l) ≡ₚ l
  /\ (u ∉ l -> onPressUserCell u (onPressUserCell u l) = l)
  /\ (u ∈ l -> exists k, l !! k = Some u
                         /\ onPressUserCell u (onPressUserCell u l) = delete k l ++ [u]).
Proof.
  intros Hnd. split; [|split].
  - apply NoDup_Permutation; [by do 2 apply onPressUserCell_NoDup | done |].
    intros v. rewrite onPressUserCell_elem_of by (by apply onPressUserCell_NoDup).
    rewrite !onPressUserCell_elem_of by done.
    destruct (decide (v = u)) as [->|Hne]; destruct (decide (u ∈ l)); intuition congruence.
  - intros Hnot. rewrite (onPressUserCell_absent u l Hnot).
    destruct (onPressUserCell_present u (l ++ [u])) as (k & Hk & _ & ->).
    { rewrite elem_of_app, list_elem_of_singleton. by right. }
    assert (k = length l) as ->.
    { destruct (decide (k < length l)) as [Hlt|Hge].
      - rewrite lookup_app_l in Hk by done.
        apply list_elem_of_lookup_2 in Hk. contradiction.
      - apply lookup_lt_Some in Hk. rewrite length_app in Hk. cbn in Hk. lia. }
    by rewrite delete_middle, app_nil_r.
  - intros Hin. destruct (onPressUserCell_present u l Hin) as (k & Hk & _ & Heq).
    exists k. split; [exact Hk|]. rewrite Heq. apply onPressUserCell_absent.
    rewrite <- Heq. rewrite onPressUserCell_elem_of by done. intuition congruence.
Qed.

Lemma press_twice_restores_witness :
  NoDup [InviteInputs.u1; InviteInputs.u2]
  /\ onPressUserCell InviteInputs.u1
       (onPressUserCell InviteInputs.u1 [InviteInputs.u1; InviteInputs.u2])
     ≡ₚ [InviteInputs.u1; InviteInputs.u2]
  /\ onPressUserCell InviteInputs.u1
       (onPressUserCell InviteInputs.u1 [InviteInputs.u1; InviteInputs.u2])
     = [InviteInputs.u2; InviteInputs.u1].
Proof.
  assert (NoDup [InviteInputs.u1; InviteInputs.u2]) as Hnd.
  { apply NoDup_cons. split; [|apply NoDup_singleton].
    intros H%list_elem_of_singleton. discriminate H. }
  split; [exact Hnd|]. split; [|reflexivity].
  exact (proj1 (press_twice_restores InviteInputs.u1 _ Hnd)).
Defined.

(** X3. The header button always acts on the selection on screen, although
    its effect only depends on the number of selected users: in every world
    the screen can be in, while it is mounted, a press with somebody selected
    invites exactly the users selected now, in order, to the channel on
    screen; a press with nobody selected shows the alert and invites
    nobody. *)
Theorem invite_button_sees_current_selection (w : World) :
  reachable w -> phase w = Mounted ->
  (selectedUsers w <> [] ->
     exists ch, channel w = Some ch
                /\ trace (step EvPressInvite w)
                   = trace w ++ [Invite (channelUrl ch) (selectedUsers w)])
  /\ (selectedUsers w = [] -> trace (step EvPressInvite w) = trace w ++ [Alert]).
Proof.
  intros Hr Hp. destruct (invite_reachable_consistent w Hr) as (_ & H2 & H3 & _).
  destruct (H2 ltac:(congruence)) as (cap & Hcap & Hch).
  cbn [step]. rewrite Hp, Hcap. unfold onPressInviteUsers. split.
  - intros Hne. rewrite (Hch Hne).
    destruct (channel w) as [ch|] eqn:Hc; [|by destruct Hne; apply H3].
    exists ch. split; [reflexivity|].
    destruct (selectedUsers w) as [|x l]; [done|]. reflexivity.
  - intros ->. by destruct cap.
Qed.

Lemma invite_button_sees_current_selection_witness :
  reachable InviteInputs.world_selected
  /\ phase InviteInputs.world_selected = Mounted
  /\ selectedUsers InviteInputs.world_selected = [InviteInputs.u2; InviteInputs.u3]
  /\ exists ch, channel InviteInputs.world_selected = Some ch
                /\ trace (step EvPressInvite InviteInputs.world_selected)
                   = trace InviteInputs.world_selected
                     ++ [Invite (channelUrl ch) (selectedUsers InviteInputs.world_selected)].
Proof.
  pose proof reachable_world_selected as Hr.
  split; [exact Hr|]. split; [reflexivity|]. split; [reflexivity|].
  apply (proj1 (invite_button_sees_current_selection InviteInputs.world_selected Hr eq_refl)).
  discriminate.
Defined.

(** X4. Whatever happens on the invite screen, [channel.invite] is never
    called with an empty list and never with the same user object twice in
    one list. *)
Theorem never_invites_nobody (w : World) (us : list User) :
  reachable w -> us ∈ invitations w -> us <> [] /\ NoDup us.
Proof.
  intros Hr Hus. destruct (invite_reachable_consistent w Hr) as (_ & _ & _ & _ & _ & H6). auto.
Qed.

Lemma never_invites_nobody_witness :
  reachable (step EvPressInvite InviteInputs.world_selected)
  /\ invitations (step EvPressInvite InviteInputs.world_selected)
     = [[InviteInputs.u2; InviteInputs.u3]]
  /\ ([InviteInputs.u2; InviteInputs.u3] <> [] /\ NoDup [InviteInputs.u2; InviteInputs.u3]).
Proof.
  pose proof (invite_reachable_step EvPressInvite _ reachable_world_selected) as Hr.
  split; [exact Hr|]. split; [reflexivity|].
  apply (never_invites_nobody (step EvPressInvite InviteInputs.world_selected) _ Hr).
  apply list_elem_of_singleton. reflexivity.
Defined.

(** X5. A page of more users is appended after the users on screen and
    disturbs neither the selection nor the header button: in every world the
    mounted screen can be in, with a load outstanding, the arrival of a page
    leaves the earlier users in place, adds the page at the end, and changes
    nothing else the user selected. *)
Theorem more_users_are_appended (w : World) (page : list User) (n : nat) :
  reachable w -> phase w = Mounted -> awaitingMoreUsers w = S n ->
  let w' := step (EvMoreUsersSettled (inr page)) w in
  users w' = users w ++ page
  /\ selectedUsers w' = selectedUsers w
  /\ header w' = header w
  /\ trace w' = trace w.
Proof.
  intros Hr Hp Hn. cbv zeta. cbn [step]. rewrite Hn.
  unfold onLoadMoreUsers_resume. cbn [fst]. unfold setUsers. cbn [phase set_awaitingMoreUsers].
  rewrite Hp.
  rewrite (render_same_selection w) by
    (first [by apply invite_reachable_consistent | congruence | reflexivity]).
  auto.
Qed.

Lemma more_users_are_appended_witness :
  let w := step EvEndReached InviteInputs.world_selected in
  reachable w /\ phase w = Mounted /\ awaitingMoreUsers w = 1
  /\ users (step (EvMoreUsersSettled (inr [InviteInputs.u1'])) w)
     = [InviteInputs.u1; InviteInputs.u2; InviteInputs.u3; InviteInputs.u1']
  /\ selectedUsers (step (EvMoreUsersSettled (inr [InviteInputs.u1'])) w)
     = [InviteInputs.u2; InviteInputs.u3].
Proof.
  cbv zeta.
  pose proof (invite_reachable_step EvEndReached _ reachable_world_selected) as Hr.
  split; [exact Hr|]. split; [reflexivity|]. split; [reflexivity|].
  destruct (more_users_are_appended (step EvEndReached InviteInputs.world_selected)
              [InviteInputs.u1'] 0 Hr eq_refl eq_refl) as (Hu & Hs & _).
  split; [exact Hu | exact Hs].
Defined.

(** *** What a cell shows *)

Lemma indexOf_found (l : list User) (u : User) :
  (indexOf l u >? -1)%Z = true <-> u ∈ l.
Proof.
  unfold indexOf.
  destruct (indexOf_from_spec 0 l u (Z.le_refl 0)) as [[Hnot ->]|(k & Hk & _ & ->)].
  - split; [discriminate | contradiction].
  - split; [intros _; by eapply list_elem_of_lookup_2|].
    intros _. apply Z.gtb_lt. lia.
Qed.

Lemma findIndex_from_found (i : Z) (P : User -> bool) (l : list User) :
  (0 <= i)%Z ->
  (findIndex_from i P l >? -1)%Z = true <-> exists x, x ∈ l /\ P x = true.
Proof.
  revert i. induction l as [|x l IH]; intros i Hi; cbn [findIndex_from].
  - split; [discriminate|]. intros (x & Hx & _). by apply elem_of_nil in Hx.
  - destruct (P x) eqn:HP.
    + split; [intros _; exists x; split; [apply elem_of_cons; by left | done]|].
      intros _. apply Z.gtb_lt. lia.
    + assert (0 <= i + 1)%Z as Hi' by lia. rewrite (IH (i + 1)%Z Hi').
      split; intros (y & Hy & HPy); exists y; split; try done.
      * apply elem_of_cons. by right.
      * apply elem_of_cons in Hy as [->|Hy]; [congruence | done].
Qed.

(** X6. A cell is shown as selected exactly when its user object is among
    the selected ones, or some member of the channel has the same user id;
    and while there is no channel, no cell is rendered at all. *)
Theorem cell_selected_iff (sel : list User) (ch : InviteChannel)
    (currentUser : option string) (item : User) :
  renderItem sel None currentUser item = None
  /\ exists shown isMe,
       renderItem sel (Some ch) currentUser item = Some (item, shown, isMe)
       /\ (shown = true <->
           item ∈ sel \/ exists m, m ∈ members ch /\ userId m = userId item)
       /\ (isMe = true <-> currentUser = Some (userId item)).
Proof.
  split; [reflexivity|]. eexists; eexists. split; [reflexivity|]. split.
  - unfold selected. rewrite orb_true_iff, indexOf_found.
    unfold findIndex. rewrite findIndex_from_found by lia.
    split; (intros [H|(m & Hm & Heq)]; [by left | right; exists m; split; [done|]]).
    + by apply String.eqb_eq.
    + by apply String.eqb_eq.
  - unfold me, strict_eq. destruct currentUser as [c|]; [|split; discriminate].
    rewrite String.eqb_eq. split; [by intros -> | by intros [= ->]].
Qed.

End GroupChannelInviteScreenSpec.

(** ** GroupChannelScreen: the keys of the message list *)
Module MessageKeysSpec.
Import MessageKeys.

Lemma pretty_N_go_nonempty (x : N) (s : string) :
  s <> EmptyString -> pretty_N_go x s <> EmptyString.
Proof.
  revert s. induction (N.lt_wf_0 x) as [x _ IH]; intros s Hs.
  destruct (decide (x = 0)%N) as [->|Hx]; [by rewrite pretty_N_go_0|].
  rewrite pretty_N_go_step by lia.
  apply IH; [apply N.div_lt; lia | discriminate].
Qed.

Lemma String_of_number_nonempty (n : Z) : String_of_number n <> EmptyString.
Proof.
  assert (forall p : positive, pretty p <> EmptyString) as Hpos.
  { intros p. unfold pretty, pretty_positive, pretty, pretty_N.
    rewrite decide_False by done.
    rewrite pretty_N_go_step by lia. apply pretty_N_go_nonempty. discriminate. }
  unfold String_of_number, pretty, pretty_Z. destruct n as [|p|p]; [discriminate|apply Hpos|].
  discriminate.
Qed.

Lemma truthy_nonempty (s : string) : truthy (Some s) = true <-> s <> EmptyString.
Proof. destruct s; cbn; split; intros; done. Qed.

(** X7. Among messages keyed the same way, keys are as unique as the ids
    behind them: two messages keyed by request id have the same key exactly
    when their request ids are equal, and two messages keyed by message id
    exactly when their message ids are equal. *)
Theorem keys_of_one_kind (a b : BaseMessage) :
  keyed_by_reqId a = keyed_by_reqId b ->
  keyExtractor a = keyExtractor b
  <-> (if keyed_by_reqId a then reqId a = reqId b else messageId a = messageId b).
Proof.
  unfold keyExtractor, keyed_by_reqId. intros <-.
  destruct (sendable a && truthy (Some (reqId a))); [done|].
  unfold String_of_number. split; [apply pretty_Z_inj | by intros ->].
Qed.

Lemma keys_of_one_kind_witness :
  keyed_by_reqId (mkMessage 7 EmptyString true) = keyed_by_reqId (mkMessage 8 "r" false)
  /\ keyExtractor (mkMessage 7 EmptyString true) <> keyExtractor (mkMessage 8 "r" false).
Proof.
  split; [reflexivity|].
  intros H.
  apply (proj1 (keys_of_one_kind (mkMessage 7 EmptyString true) (mkMessage 8 "r" false) eq_refl))
    in H.
  discriminate H.
Defined.

(** X8. Keys are not unique across the two kinds: for every message id [n]
    that is a safe integer, a sendable message whose request id is the
    decimal text of [n] gets the same key as a message keyed by its message
    id [n], whatever its own message id is. *)
Theorem keys_collide_across_kinds (n m : Z) (s : bool) :
  safe_integer n ->
  keyExtractor (mkMessage n EmptyString s)
  = keyExtractor (mkMessage m (String_of_number n) true).
Proof.
  intros _. unfold keyExtractor. cbn [sendable reqId messageId].
  rewrite andb_false_r. cbn [andb].
  replace (truthy (Some (String_of_number n))) with true; [reflexivity|].
  symmetry. apply truthy_nonempty, String_of_number_nonempty.
Qed.

Lemma keys_collide_across_kinds_witness :
  safe_integer 1700000000000
  /\ keyExtractor (mkMessage 1700000000000 EmptyString false) = "1700000000000"%string
  /\ keyExtractor (mkMessage 42 "1700000000000" true) = "1700000000000"%string
  /\ keyExtractor (mkMessage 1700000000000 EmptyString false)
     = keyExtractor (mkMessage 42 (String_of_number 1700000000000) true).
Proof.
  assert (safe_integer 1700000000000) as Hsafe by (unfold safe_integer; lia).
  split; [exact Hsafe|]. split; [reflexivity|]. split; [reflexivity|].
  exact (keys_collide_across_kinds 1700000000000 42 false Hsafe).
Defined.

End MessageKeysSpec.


(** ** GroupChannelScreen: an SDK that is silent after [dispose] *)
Module SdkDeliverySpec.
Import GroupChannelScreen SdkDelivery.

Lemma live_spec (c : nat) (w : World) :
  live c w = true
  <-> exists sub, subs w !! c = Some sub /\ disposed (subCollection sub) = false.
Proof.
  unfold live. destruct (subs w !! c) as [sub|].
  - rewrite negb_true_iff. split; [eauto | by intros (? & [= <-] & ?)].
  - split; [discriminate | by intros (? & ? & ?)].
Qed.

Lemma live_ext (c : nat) (w w' : World) : subs w' = subs w -> live c w' = live c w.
Proof. unfold live. by intros ->. Qed.

Lemma agree_quiet (w w' : World) :
  disposeCalls w' = disposeCalls w -> subs w' = subs w ->
  phase w' = phase w -> disposeEffect w' = disposeEffect w ->
  disposals_agree w -> disposals_agree w'.
Proof.
  unfold disposals_agree, live. intros -> -> -> ->. done.
Qed.

Lemma dispose_keeps_record (c : nat) (w : World) :
  live c w = true -> disposals_agree w ->
  NoDup (disposeCalls (dispose c w))
  /\ (forall c', c' ∈ disposeCalls (dispose c w)
                 <-> exists sub, subs (dispose c w) !! c' = Some sub
                                 /\ disposed (subCollection sub) = true).
Proof.
  intros (sub & Hsub & Hflag)%live_spec (Hnd & Hiff & _).
  assert (disposeCalls (dispose c w) = disposeCalls w ++ [c]) as ->.
  { unfold dispose. by rewrite GroupChannelScreenSpec.disposeCalls_call. }
  assert (c ∉ disposeCalls w) as Hc.
  { intros (sub' & Hsub' & Hflag')%Hiff. congruence. }
  split.
  - apply NoDup_app. split; [done|]. split; [|apply NoDup_singleton].
    intros x Hx ->%list_elem_of_singleton. contradiction.
  - intros c'. unfold dispose. cbn [subs call set_subs].
    rewrite elem_of_app, list_elem_of_singleton.
    destruct (decide (c' = c)) as [->|Hne].
    + rewrite list_lookup_alter_eq, Hsub. cbn. split; [eauto | by right].
    + rewrite list_lookup_alter_ne by done. rewrite Hiff. intuition congruence.
Qed.

Lemma live_dispose_ne (c c' : nat) (w : World) :
  c' <> c -> live c' (dispose c w) = live c' w.
Proof.
  intros Hne. unfold live, dispose. cbn [subs call set_subs].
  by rewrite list_lookup_alter_ne.
Qed.

(** A render keeps the record right, provided a new collection in [state]
    is live. *)
Lemma agree_render (w : World) :
  phase w = Mounted -> disposals_agree w ->
  (forall st, state w = Some st ->
     collection <$> state w <> collection <$> disposeEffect w ->
     live (collection st) w = true) ->
  disposals_agree (render w).
Proof.
  intros Hp Hw Hnew. pose proof Hw as (Hnd & Hiff & Hlive).
  unfold render. cbn [state disposeEffect set_rendered].
  case_decide as Hdeps; [by eapply agree_quiet; [..|exact Hw]|].
  destruct (disposeEffect w) as [old|] eqn:Hold; cbn [disposeCleanup].
  - pose proof (Hlive Hp old eq_refl) as Hold_live.
    destruct (dispose_keeps_record (collection old) (set_rendered (Some (view w)) w))
      as [Hnd' Hiff']; [done | by eapply agree_quiet; [..|exact Hw] |].
    split; [exact Hnd'|]. split; [exact Hiff'|].
    intros _ st Hst. cbn in Hst.
    rewrite (live_ext _ (dispose (collection old) (set_rendered (Some (view w)) w)))
      by reflexivity.
    rewrite live_dispose_ne.
    + rewrite (live_ext _ w) by reflexivity. exact (Hnew st Hst Hdeps).
    + intros Heq. apply Hdeps. rewrite Hst. cbn. by rewrite Heq.
  - split; [exact Hnd|]. split; [exact Hiff|].
    intros _ st Hst. cbn in Hst.
    rewrite (live_ext _ w) by reflexivity. exact (Hnew st Hst Hdeps).
Qed.

Lemma agree_rerender (w : World) :
  consistent w -> disposals_agree w -> disposals_agree (rerender w).
Proof.
  intros (_ & H2 & _) Hw. unfold rerender. destruct (phase w) eqn:Hp; auto.
  apply agree_render; auto. intros st Hst Hne. destruct Hne. symmetry. auto.
Qed.

Lemma agree_setState (x : option ScreenState) (w : World) :
  consistent w -> disposals_agree w ->
  (forall st, x = Some st ->
     live (collection st) w = true \/ collection <$> x = collection <$> state w) ->
  disposals_agree (setState x w).
Proof.
  intros (_ & H2 & _) Hw Hx. unfold setState. destruct (phase w) eqn:Hp; auto.
  apply agree_render; [done | by eapply agree_quiet; [..|exact Hw] |].
  cbn. intros st Hst Hne. destruct (Hx st Hst) as [Hl|Heq]; [exact Hl|].
  destruct Hne. rewrite Heq. symmetry. auto.
Qed.

Lemma agree_call (c : Call) (w : World) :
  (forall k, c <> Dispose k) -> disposals_agree w -> disposals_agree (call c w).
Proof.
  intros Hc Hw. eapply agree_quiet; [..|exact Hw]; try reflexivity.
  rewrite GroupChannelScreenSpec.disposeCalls_call.
  destruct c; try apply app_nil_r. by destruct (Hc c).
Qed.

Lemma agree_new_collection (u : string) (ch : GroupChannel) (w : World) :
  disposals_agree w ->
  disposals_agree (set_subs (subs w ++ [mkSub u ch createMessageCollection]) w).
Proof.
  intros (Hnd & Hiff & Hlive). split; [exact Hnd|]. split.
  - intros c. cbn [subs set_subs]. rewrite Hiff. split.
    + intros (sub & Hsub & Hflag). exists sub. split; [|done].
      rewrite lookup_app_l; [done | by eapply lookup_lt_Some].
    + intros (sub & Hsub & Hflag). exists sub. split; [|done].
      apply lookup_app_Some in Hsub as [Hsub|[_ Hsub]]; [done|].
      apply list_lookup_singleton_Some in Hsub as [_ <-]. discriminate Hflag.
  - intros Hp st Hst. specialize (Hlive Hp st Hst).
    apply live_spec in Hlive as (sub & Hsub & Hflag). apply live_spec.
    exists sub. split; [|done]. cbn [subs set_subs].
    rewrite lookup_app_l; [done | by eapply lookup_lt_Some].
Qed.

Lemma agree_sync (c : nat) (f p s : list BaseMessage) (hn hp : bool) (w : World) :
  disposals_agree w ->
  disposals_agree (set_subs (alter (sync f p s hn hp) c (subs w)) w).
Proof.
  assert (forall k, (disposed <$> (subCollection <$>
                       alter (sync f p s hn hp) c (subs w) !! k))
                    = (disposed <$> (subCollection <$> subs w !! k))) as Hsame.
  { intros k. destruct (decide (k = c)) as [->|Hne].
    - rewrite list_lookup_alter_eq. by destruct (subs w !! c).
    - by rewrite list_lookup_alter_ne. }
  assert (forall k b, (exists sub, alter (sync f p s hn hp) c (subs w) !! k = Some sub
                                   /\ disposed (subCollection sub) = b)
                      <-> (exists sub, subs w !! k = Some sub
                                       /\ disposed (subCollection sub) = b)) as Hex.
  { intros k b. specialize (Hsame k).
    destruct (alter _ c (subs w) !! k) as [x|], (subs w !! k) as [y|]; cbn in Hsame;
      try discriminate.
    - injection Hsame as Hsame.
      split; intros (? & [= <-] & <-); eexists; (split; [reflexivity|]); congruence.
    - split; intros (? & ? & ?); discriminate. }
  intros (Hnd & Hiff & Hlive). split; [exact Hnd|]. split.
  - intros k. cbn [subs set_subs]. rewrite Hex. apply Hiff.
  - intros Hp st Hst. specialize (Hlive Hp st Hst).
    apply live_spec. apply live_spec in Hlive. cbn [subs set_subs]. by apply Hex.
Qed.

Lemma agree_step (e : Event) (w : World) :
  consistent w -> disposals_agree w ->
  (forall c, source_collection e = Some c -> live c w = true) ->
  disposals_agree (step e w).
Proof.
  intros Hc Hw Hsilent. pose proof Hc as (C1 & C2 & _).
  destruct e; cbn [step]; unfold on_collection.
  - (* mount *)
    destruct (phase w) eqn:Hp; auto.
    destruct Hw as (Hnd & Hiff & _).
    assert (disposeCalls (mount w) = disposeCalls w) as Hd.
    { unfold mount. cbn. destruct (params w) as [u|]; [destruct (truthy (Some u))|];
        unfold disposeCalls; cbn; rewrite !omap_app; cbn; by rewrite !app_nil_r. }
    assert (subs (mount w) = subs w /\ disposeEffect (mount w) = None) as [Hs He].
    { unfold mount. cbn.
      destruct (params w) as [u|]; [destruct (truthy (Some u))|]; cbn;
        by rewrite (C1 eq_refl). }
    split; [by rewrite Hd|]. split; [intros c; by rewrite Hd, Hs|].
    intros _ st. rewrite He. discriminate.
  - (* unmount *)
    destruct (phase w) eqn:Hp; auto. unfold unmount. cbn [disposeEffect set_phase].
    assert (disposals_agree (disposeCleanup (disposeEffect w) (set_phase Unmounted w))) as Hd.
    { pose proof Hw as (Hnd & Hiff & Hlive).
      destruct (disposeEffect w) as [old|] eqn:Hold; cbn [disposeCleanup].
      - destruct (dispose_keeps_record (collection old) (set_phase Unmounted w))
          as [Hnd' Hiff'].
        + rewrite (live_ext _ w) by reflexivity. by apply Hlive.
        + split; [exact Hnd|]. split; [exact Hiff|]. discriminate.
        + split; [exact Hnd'|]. split; [exact Hiff'|]. discriminate.
      - split; [exact Hnd|]. split; [exact Hiff|]. discriminate. }
    eapply agree_quiet; [..|apply (agree_call RemoveGroupChannelHandler), Hd];
      done.
  - (* getChannel settles *)
    destruct (pendingInit w !! i); auto.
    unfold initializeCollection_resume. destruct r as [err|ch].
    + apply agree_call; [done|]. by eapply agree_quiet; [..|exact Hw].
    + do 4 (apply agree_call; [done|]).
      apply (agree_new_collection s ch (set_pendingInit (delete i (pendingInit w)) w)).
      by eapply agree_quiet; [..|exact Hw].
  - by apply agree_sync.
  - (* cache result *)
    destruct (subs w !! c) as [sub|] eqn:Hsub; auto. unfold onCacheResult.
    pose proof (Hsilent c eq_refl) as Hl.
    destruct (nonempty messages).
    + apply agree_setState;
        [by apply GroupChannelScreenSpec.consistent_rerender | by apply agree_rerender |].
      intros st [= <-]. left. cbn.
      rewrite (live_ext _ w); [done|].
      unfold rerender, render, disposeCleanup. destruct (phase w) eqn:Hp; try done.
      cbn. rewrite (C2 eq_refl). by rewrite decide_True.
    + apply agree_setState; try done. intros st [= <-]. by left.
  - (* api result *)
    destruct (subs w !! c) as [sub|] eqn:Hsub; auto. unfold onApiResult.
    pose proof (Hsilent c eq_refl) as Hl.
    destruct (nonempty messages).
    + apply agree_setState;
        [by apply GroupChannelScreenSpec.consistent_rerender | by apply agree_rerender |].
      intros st [= <-]. left. cbn.
      rewrite (live_ext _ w); [done|].
      unfold rerender, render, disposeCleanup. destruct (phase w) eqn:Hp; try done.
      cbn. rewrite (C2 eq_refl). by rewrite decide_True.
    + apply agree_setState; try done. intros st [= <-]. by left.
  - destruct (subs w !! c); auto. by apply agree_call.
  - destruct (subs w !! c); auto. unfold onChannelUpdated.
    destruct (state w) as [prev|] eqn:Hs; auto.
    apply agree_setState; try done. intros st [= <-]. right. by rewrite Hs.
  - destruct (subs w !! c); auto. by apply agree_rerender.
  - destruct (subs w !! c); auto. unfold onMessagesAdded.
    destruct (marksAsRead source); [apply agree_call; [done|]|]; by apply agree_rerender.
  - destruct (subs w !! c); auto. by apply agree_rerender.
  - destruct (subs w !! c); auto. unfold onHugeGapDetected, initializeCollection.
    eapply agree_quiet; [..|apply (agree_call (GetChannel (subUrl s))), Hw]; done.
  - destruct (channelHandler w); auto. unfold onUserBanned.
    case_match; auto. by apply agree_call.
  - destruct (channelHandler w); auto. unfold onUserLeft.
    case_match; auto. by apply agree_call.
  - destruct (phase w); auto. unfold onStartReached.
    repeat case_match; cbn [fst]; auto.
    eapply agree_quiet; [..|apply (agree_call (LoadNext (collection s))), Hw]; done.
  - destruct (phase w); auto. unfold onEndReached.
    repeat case_match; cbn [fst]; auto.
    eapply agree_quiet; [..|apply (agree_call (LoadPrevious (collection s))), Hw]; done.
  - destruct (pendingLoad w !! i); auto. unfold onLoadSettled.
    destruct r; cbn [fst].
    + by eapply agree_quiet; [..|exact Hw].
    + apply agree_rerender; [|by eapply agree_quiet; [..|exact Hw]].
      eapply GroupChannelScreenSpec.consistent_ext; [..|exact Hc]; done.
Qed.

Lemma agree_run (es : list Event) (w : World) :
  consistent w -> disposals_agree w -> silent_after_dispose es w ->
  consistent (run es w) /\ disposals_agree (run es w).
Proof.
  revert w. induction es as [|e es IH]; intros w Hc Hw Hs; [done|].
  destruct Hs as [He Hs]. apply IH; [|by apply agree_step|done].
  by apply GroupChannelScreenSpec.consistent_step.
Qed.

Lemma agree_initial (p user : option string) : disposals_agree (initial p user).
Proof.
  split; [apply NoDup_nil_2|]. split; [|discriminate].
  intros c. cbn. split; [by intros ?%elem_of_nil | by intros (? & ? & ?)].
Qed.

(** X9. As long as the SDK delivers no callback of a collection that was
    disposed, the screen disposes no collection twice, and the collection in
    the state of a mounted screen is one that exists and is not disposed. *)
Theorem each_collection_disposed_at_most_once
    (p user : option string) (es : list Event) :
  silent_after_dispose es (initial p user) ->
  NoDup (disposeCalls (run es (initial p user)))
  /\ (phase (run es (initial p user)) = Mounted ->
      forall st, state (run es (initial p user)) = Some st ->
                 live (collection st) (run es (initial p user)) = true).
Proof.
  intros Hs.
  destruct (agree_run es (initial p user)
              (GroupChannelScreenSpec.consistent_initial p user)
              (agree_initial p user) Hs) as [(_ & C2 & _) (Hnd & _ & Hlive)].
  split; [exact Hnd|]. intros Hp st Hst.
  specialize (C2 Hp). rewrite Hst in C2.
  destruct (disposeEffect _) as [de|] eqn:Hde; [|discriminate].
  injection C2 as C2. rewrite <- C2. by apply (Hlive Hp).
Qed.

Lemma gap_and_leave_is_silent :
  silent_after_dispose MoreInputs.gap_and_leave
    (initial (Some "ch"%string) (Some "me"%string)).
Proof.
  vm_compute. repeat split; intros c H; try discriminate H; by injection H as <-.
Qed.

Lemma each_collection_disposed_at_most_once_witness :
  silent_after_dispose MoreInputs.gap_and_leave
    (initial (Some "ch"%string) (Some "me"%string))
  /\ disposeCalls (run MoreInputs.gap_and_leave
                     (initial (Some "ch"%string) (Some "me"%string))) = [0; 1]
  /\ NoDup (disposeCalls (run MoreInputs.gap_and_leave
                            (initial (Some "ch"%string) (Some "me"%string)))).
Proof.
  split; [exact gap_and_leave_is_silent|]. split; [reflexivity|].
  exact (proj1 (each_collection_disposed_at_most_once _ _ _ gap_and_leave_is_silent)).
Defined.

End SdkDeliverySpec.

(** ** GroupChannelScreen: initialisation *)
Module GroupChannelScreenInitSpec.
Import GroupChannelScreen.

(** X10. On a mounted screen, a result of [initialize] for any collection
    that exists, from the cache or from the API, puts that collection, with
    the channel it was created from, into the state and on screen. The
    collection the state held before is disposed if it is another one; a
    further result of the same collection disposes nothing. Nothing in the
    screen checks whether the collection of the result was itself disposed
    already. *)
Theorem initialize_result_takes_over
    (w : World) (c : nat) (sub : Subscription)
    (viaApi : bool) (messages : option (list BaseMessage)) :
  reachable w -> phase w = Mounted -> subs w !! c = Some sub ->
  let e := if viaApi then EvApiResult c messages else EvCacheResult c messages in
  state (step e w) = Some {| channel := subChannel sub; collection := c |}
  /\ disposeCalls (step e w)
     = disposeCalls w
       ++ match state w with
          | Some st => if decide (collection st = c) then [] else [collection st]
          | None => []
          end
  /\ rendered (step e w) = Some (FlatList (data (subCollection sub))).
Proof.
  intros Hr Hp Hsub. cbv zeta.
  destruct (GroupChannelScreenSpec.reachable_consistent w Hr) as (_ & H2 & _).
  specialize (H2 Hp).
  assert (step (if viaApi then EvApiResult c messages else EvCacheResult c messages) w
          = onCacheResult c sub messages w) as ->.
  { destruct viaApi; cbn [step]; unfold on_collection; by rewrite Hsub. }
  assert (rerender w = set_rendered (Some (view w)) w) as Hre.
  { unfold rerender, render. rewrite Hp. cbn. by rewrite decide_True. }
  assert (forall w0, phase w0 = Mounted -> state w0 = state w ->
            disposeEffect w0 = disposeEffect w -> subs w0 = subs w -> trace w0 = trace w ->
            let w' := setState (Some {| channel := subChannel sub; collection := c |}) w0 in
            state w' = Some {| channel := subChannel sub; collection := c |}
            /\ disposeCalls w'
               = disposeCalls w
                 ++ match state w with
                    | Some st => if decide (collection st = c) then [] else [collection st]
                    | None => []
                    end
            /\ rendered w' = Some (FlatList (data (subCollection sub)))) as Hset.
  { intros w0 Hp0 Hst0 Hde0 Hsubs0 Htr0. cbv zeta.
    unfold setState, render. rewrite Hp0. cbn [state disposeEffect set_state set_rendered].
    rewrite Hde0. unfold view. cbn [state subs set_state collection].
    rewrite Hsubs0, Hsub.
    destruct (state w) as [st|] eqn:Hst, (disposeEffect w) as [de|] eqn:Hde;
      try discriminate H2; cbn in H2.
    - injection H2 as H2. cbn [fmap option_fmap option_map collection].
      destruct (decide (collection st = c)) as [Heq|Hne].
      + rewrite decide_True by congruence. cbn.
        unfold disposeCalls. cbn. rewrite Htr0. by rewrite app_nil_r.
      + rewrite decide_False by congruence. cbn.
        unfold disposeCalls. cbn. rewrite Htr0, omap_app, H2. done.
    - cbn. rewrite decide_False by discriminate. cbn.
      unfold disposeCalls. cbn. rewrite Htr0. by rewrite app_nil_r. }
  unfold onCacheResult. destruct (nonempty messages).
  - rewrite Hre. by apply Hset.
  - by apply Hset.
Qed.

Lemma initialize_result_takes_over_witness :
  reachable Inputs.world_ready
  /\ phase Inputs.world_ready = Mounted
  /\ subs Inputs.world_ready !! 0
     = Some (mkSub "ch" Inputs.channel_demo
               (mkCollection [Inputs.m1] [Inputs.m2] [Inputs.m3; Inputs.m4] true false false))
  /\ disposeCalls (step (EvApiResult 0 None) Inputs.world_ready) = [].
Proof.
  assert (reachable Inputs.world_ready) as Hr.
  { exists (Some "ch"%string), (Some "me"%string), Inputs.opening. reflexivity. }
  split; [exact Hr|]. split; [reflexivity|]. split; [reflexivity|].
  exact (proj1 (proj2 (initialize_result_takes_over Inputs.world_ready 0 _ true None
                         Hr eq_refl eq_refl))).
Defined.

(** A screen with nothing to wait for: there is no collection, no pending
    [getChannel] or load, no state. *)
Lemma idle_step (e : Event) (w : World) :
  phase w <> Fresh -> subs w = [] -> pendingInit w = [] -> pendingLoad w = [] ->
  state w = None -> disposeEffect w = None ->
  (channelHandler w = None \/ channelHandler w = Some None) ->
  (phase (step e w) <> Fresh /\ subs (step e w) = [] /\ pendingInit (step e w) = []
   /\ pendingLoad (step e w) = [] /\ state (step e w) = None
   /\ disposeEffect (step e w) = None
   /\ (channelHandler (step e w) = None \/ channelHandler (step e w) = Some None))
  /\ rendered (step e w) = rendered w
  /\ goBackCalls (step e w) = goBackCalls w.
Proof.
  intros Hp Hs Hpi Hpl Hst Hde Hh.
  assert ((phase w <> Fresh /\ subs w = [] /\ pendingInit w = [] /\ pendingLoad w = []
           /\ state w = None /\ disposeEffect w = None
           /\ (channelHandler w = None \/ channelHandler w = Some None))
          /\ rendered w = rendered w /\ goBackCalls w = goBackCalls w) as Hsame
    by (repeat split; assumption || reflexivity).
  destruct e; cbn [step]; unfold on_collection;
    rewrite ?Hs, ?Hpi, ?Hpl, ?lookup_nil; try exact Hsame.
  - (* mount *)
    destruct (phase w) eqn:Hph; [by destruct Hp | rewrite Hph; exact Hsame..].
  - (* unmount *)
    destruct (phase w) eqn:Hph; try (rewrite Hph; exact Hsame).
    unfold unmount. cbn [disposeEffect set_phase]. rewrite Hde. cbn [disposeCleanup].
    unfold goBackCalls. cbn. rewrite filter_app, length_app. cbn.
    rewrite Nat.add_0_r. repeat split; auto; discriminate.
  - (* the SDK changes a collection that does not exist *)
    cbn. repeat split; auto.
  - destruct Hh as [Hn|Hn]; rewrite Hn; exact Hsame.
  - destruct Hh as [Hn|Hn]; rewrite Hn; exact Hsame.
  - destruct (phase w) eqn:Hph; try (rewrite Hph; exact Hsame).
    unfold onStartReached. rewrite Hst. cbn [fst]. rewrite Hph. exact Hsame.
  - destruct (phase w) eqn:Hph; try (rewrite Hph; exact Hsame).
    unfold onEndReached. rewrite Hst. cbn [fst]. rewrite Hph. exact Hsame.
Qed.

Lemma idle_run (es : list Event) (w : World) :
  phase w <> Fresh -> subs w = [] -> pendingInit w = [] -> pendingLoad w = [] ->
  state w = None -> disposeEffect w = None ->
  (channelHandler w = None \/ channelHandler w = Some None) ->
  subs (run es w) = [] /\ state (run es w) = None
  /\ rendered (run es w) = rendered w
  /\ goBackCalls (run es w) = goBackCalls w.
Proof.
  revert w. induction es as [|e es IH]; intros w Hp Hs Hpi Hpl Hst Hde Hh; [done|].
  destruct (idle_step e w Hp Hs Hpi Hpl Hst Hde Hh)
    as ((Hp' & Hs' & Hpi' & Hpl' & Hst' & Hde' & Hh') & Hr & Hg).
  destruct (IH (step e w) Hp' Hs' Hpi' Hpl' Hst' Hde' Hh') as (? & ? & Hr' & Hg').
  unfold run in *. cbn [fold_left]. rewrite Hr', Hg'. auto.
Qed.

(** X11. A screen that cannot get its channel never gets further than the
    loading indicator. Mounted without a usable channel url, or mounted with
    one and [getChannel] rejects, it tells the navigator to go back exactly
    once; whatever happens afterwards, no collection is ever created, the
    state stays undefined, the loading indicator stays on screen, and the
    navigator is not called again. *)
Theorem no_channel_no_collection
    (p user : option string) (err : Error) (es : list Event) :
  let w0 := if truthy p
            then run [EvMount; EvGetChannelSettled 0 (inl err)] (initial p user)
            else step EvMount (initial p user) in
  subs (run es w0) = []
  /\ state (run es w0) = None
  /\ rendered (run es w0) = Some ActivityIndicator
  /\ goBackCalls (run es w0) = 1.
Proof.
  cbv zeta.
  assert (forall w0, phase w0 <> Fresh -> subs w0 = [] -> pendingInit w0 = [] ->
            pendingLoad w0 = [] -> state w0 = None -> disposeEffect w0 = None ->
            channelHandler w0 = Some None -> rendered w0 = Some ActivityIndicator ->
            goBackCalls w0 = 1 ->
            subs (run es w0) = [] /\ state (run es w0) = None
            /\ rendered (run es w0) = Some ActivityIndicator
            /\ goBackCalls (run es w0) = 1) as Hidle.
  { intros w0 Hp Hs Hpi Hpl Hst Hde Hh Hr Hg.
    destruct (idle_run es w0 Hp Hs Hpi Hpl Hst Hde (or_intror Hh)) as (? & ? & -> & ->).
    auto. }
  destruct p as [[|a u]|]; cbn [truthy]; apply Hidle; done.
Qed.

End GroupChannelScreenInitSpec.

(** ** GroupChannelListScreen: the calls made on the collection *)
Module GroupChannelListScreenTraceSpec.
Import GroupChannelListScreen Histories.

Lemma replicate_snoc (n : nat) : replicate n LoadMore ++ [LoadMore] = replicate (S n) LoadMore.
Proof. induction n as [|n IH]; [done|]. cbn. by rewrite IH. Qed.

Lemma trace_shape_same (w w' : World) (n : nat) :
  trace w' = trace w -> phase w' = phase w ->
  trace w = trace_shape (phase w) n -> trace w' = trace_shape (phase w') n.
Proof. by intros -> ->. Qed.

Lemma forceUpdate_quiet (w : World) :
  trace (forceUpdate w) = trace w /\ phase (forceUpdate w) = phase w.
Proof. unfold forceUpdate. destruct (phase w) eqn:Hp; cbn; auto. Qed.

Lemma trace_shape_step (e : Event) (w : World) (n : nat) :
  trace w = trace_shape (phase w) n ->
  exists k, k <= n + scrolled_to_end [e]
            /\ trace (step e w) = trace_shape (phase (step e w)) k.
Proof.
  intros Hw.
  assert (exists k, k <= n + scrolled_to_end [e]
                    /\ trace w = trace_shape (phase w) k) as Hkeep
    by (exists n; split; [lia | exact Hw]).
  destruct e; cbn [step].
  - (* mount *)
    destruct (phase w) eqn:Hp; [|rewrite Hp; exact Hkeep..].
    exists 0. split; [lia|]. cbn. rewrite Hw. reflexivity.
  - (* unmount *)
    destruct (phase w) eqn:Hp; [rewrite Hp; exact Hkeep| |rewrite Hp; exact Hkeep].
    exists n. split; [lia|]. cbn. rewrite Hw. reflexivity.
  - exists n. split; [lia|]. by apply (trace_shape_same w).
  - exists n. split; [lia|]. apply (trace_shape_same w); [apply forceUpdate_quiet..|done].
  - exists n. split; [lia|]. apply (trace_shape_same w); [apply forceUpdate_quiet..|done].
  - exists n. split; [lia|]. apply (trace_shape_same w); [apply forceUpdate_quiet..|done].
  - (* the end of the list *)
    destruct (phase w) eqn:Hp; [rewrite Hp; exact Hkeep| |rewrite Hp; exact Hkeep].
    unfold onEndReached. destruct (hasMore (collection w)); cbn [fst].
    + exists (S n). split; [cbn; lia|]. cbn [trace call phase]. rewrite Hw, Hp.
      cbn. by rewrite replicate_snoc.
    + rewrite Hp. exact Hkeep.
  - exists n. split; [lia|]. unfold onLoadMoreSettled. destruct r; [done|].
    apply (trace_shape_same w); [apply forceUpdate_quiet..|done].
Qed.

Lemma trace_shape_run (es : list Event) (w : World) (n : nat) :
  trace w = trace_shape (phase w) n ->
  exists m, m <= n + scrolled_to_end es
            /\ trace (run es w) = trace_shape (phase (run es w)) m.
Proof.
  revert w n. induction es as [|e es IH]; intros w n Hw.
  - exists n. split; [cbn; lia | done].
  - destruct (trace_shape_step e w n Hw) as (k & Hk & Hstep).
    destruct (IH (step e w) k Hstep) as (m & Hm & Hrun).
    exists m. split; [|exact Hrun].
    destruct e; cbn [scrolled_to_end] in *; lia.
Qed.

(** X12. On its collection the channel list makes these calls and no other:
    it sets the handler, loads once, loads again at most once for every time
    the list was scrolled to its end, and disposes exactly once, as the last
    call, when it is unmounted. After the disposal it never touches the
    collection again. *)
Theorem list_trace_shape (c : GroupChannelCollection) (es : list Event) :
  exists n, n <= scrolled_to_end es
            /\ trace (run es (initial c)) = trace_shape (phase (run es (initial c))) n.
Proof. apply (trace_shape_run es (initial c) 0). reflexivity. Qed.


End GroupChannelListScreenTraceSpec.

(** ** ConnectScreen: the form *)
Module ConnectScreenFormSpec.
Import ConnectScreen Histories.

Lemma fold_left_last (l : list string) (s : string) :
  fold_left (fun _ text => text) l s = default s (last l).
Proof.
  revert s. induction l as [|x l IH]; intros s; [done|].
  cbn [fold_left]. rewrite IH. destruct l as [|y l]; [reflexivity|].
  rewrite last_cons_cons. destruct (last (y :: l)) eqn:E; [reflexivity|].
  apply last_None in E. discriminate E.
Qed.

Lemma accessToken_typed_from (s : FormState) (es : list FormEvent) :
  accessToken (typed_from s es)
  = fold_left (fun _ text => text) (token_edits es) (accessToken s).
Proof.
  revert s. induction es as [|e es IH]; intros s; [reflexivity|].
  unfold typed_from in *. cbn [fold_left]. rewrite IH.
  destruct e; reflexivity.
Qed.

(** X13. Each field of the connect form holds the last text typed into it,
    or the empty text if nothing was typed into it; what is typed into one
    field never changes the other. *)
Theorem form_holds_last_typed (es : list FormEvent) :
  id (typed es) = default EmptyString (last (id_edits es))
  /\ accessToken (typed es) = default EmptyString (last (token_edits es)).
Proof.
  unfold typed. rewrite ConnectScreenSpec.id_typed_from, accessToken_typed_from.
  by rewrite !fold_left_last.
Qed.

End ConnectScreenFormSpec.

(** ** GroupChannelScreen: leaving a screen that shows a collection *)
Module GroupChannelScreenLeaveSpec.
Import GroupChannelScreen.

(** X14. Unmounting a screen that shows a collection releases what it holds:
    in every world the mounted screen can be in with a state, the unmount
    disposes the collection of the state, and nothing else, then removes
    the channel handler; afterwards that collection counts as disposed. *)
Theorem unmount_releases (w : World) (st : ScreenState) :
  reachable w -> phase w = Mounted -> state w = Some st ->
  trace (step EvUnmount w)
  = trace w ++ [Dispose (collection st); RemoveGroupChannelHandler]
  /\ SdkDelivery.live (collection st) (step EvUnmount w) = false
  /\ channelHandler (step EvUnmount w) = None
  /\ phase (step EvUnmount w) = Unmounted.
Proof.
  intros Hr Hp Hst.
  destruct (GroupChannelScreenSpec.reachable_consistent w Hr) as (_ & H2 & H3 & _).
  specialize (H2 Hp). rewrite Hst in H2. cbn in H2.
  destruct (disposeEffect w) as [de|] eqn:Hde; [|discriminate].
  injection H2 as H2. specialize (H3 st Hst).
  cbn [step]. rewrite Hp. unfold unmount. cbn [disposeEffect set_phase].
  rewrite Hde. cbn [disposeCleanup]. rewrite H2.
  split; [cbn; by rewrite <- app_assoc|]. split; [|done].
  unfold SdkDelivery.live. cbn [subs dispose call set_subs set_channelHandler set_phase].
  rewrite list_lookup_alter_eq.
  destruct (lookup_lt_is_Some_2 _ _ H3) as [sub ->]. reflexivity.
Qed.

Lemma unmount_releases_witness :
  reachable Inputs.world_ready
  /\ phase Inputs.world_ready = Mounted
  /\ state Inputs.world_ready = Some (mkState Inputs.channel_demo 0)
  /\ disposeCalls (step EvUnmount Inputs.world_ready) = [0].
Proof.
  assert (reachable Inputs.world_ready) as Hr.
  { exists (Some "ch"%string), (Some "me"%string), Inputs.opening. reflexivity. }
  split; [exact Hr|]. split; [reflexivity|]. split; [reflexivity|].
  unfold disposeCalls.
  rewrite (proj1 (unmount_releases Inputs.world_ready _ Hr eq_refl eq_refl)).
  reflexivity.
Defined.

End GroupChannelScreenLeaveSpec.
